(** * grafana_openai_monitoring.__handlers: endpoint check and cost calculation

    A shallow embedding of the two pure functions of
    [src/grafana_openai_monitoring/__handlers.py]:

    - [__check], which validates the five configuration arguments and
      rewrites the metrics URL to its influx line-protocol form;
    - [__calculate_cost], which looks a model name up in the pricing table
      and prices the token counts of one API call.

    Python [str] values are [string]s, [None] is the [None] of [option],
    the [dict] literal is an association list in insertion order, Python's
    unbounded [int] is [Z] and Python's [float] is IEEE 754 binary64 as
    specified by [SpecFloat].  A raised exception is a value of [exn]
    carried by [result]. *)

From Stdlib Require Import Bool Ascii String List ZArith Lia.
From Stdlib Require Import Floats.SpecFloat.
Import ListNotations.

Local Open Scope string_scope.

(** ** Exceptions and results *)

Inductive exn : Type :=
| ValueError (msg : string)
| TypeError (msg : string)
| OverflowError (msg : string)
| ZeroDivisionError (msg : string)
| KeyError (key : string)
| IndexError (msg : string).

Inductive result (A : Type) : Type :=
| Ok (a : A)
| Raise (e : exn).

Arguments Ok {A} a.
Arguments Raise {A} e.

Definition bind {A B : Type} (r : result A) (k : A -> result B) : result B :=
  match r with
  | Ok a => k a
  | Raise e => Raise e
  end.

Notation "x <- r ;; k" := (bind r (fun x => k))
  (at level 61, r at next level, right associativity).

(** ** The [str] methods the module uses *)

Module PyStr.

(** [sub in s] *)
Fixpoint contains (sub s : string) : bool :=
  match s with
  | EmptyString => prefix sub EmptyString
  | String _ s' => prefix sub s || contains sub s'
  end.

(** [s.replace(old, new)] for the empty [old]: [new] goes before every
    character and at the end. *)
Fixpoint intersperse (new s : string) : string :=
  match s with
  | EmptyString => new
  | String c s' => new ++ String c (intersperse new s')
  end.

(** The left-to-right scan of [s.replace(old, new)] for a non-empty [old]:
    [skip] counts the characters of the occurrence just replaced that are
    still to be passed over, so occurrences never overlap. *)
Fixpoint replace_from (old new : string) (skip : nat) (s : string) : string :=
  match s with
  | EmptyString => EmptyString
  | String c s' =>
      match skip with
      | S k => replace_from old new k s'
      | O =>
          if prefix old s
          then new ++ replace_from old new (String.length old - 1) s'
          else String c (replace_from old new 0 s')
      end
  end.

(** [s.replace(old, new)] *)
Definition replace (old new s : string) : string :=
  match old with
  | EmptyString => intersperse new s
  | String _ _ => replace_from old new 0 s
  end.

(** [s.endswith(suffix)]: some tail of [s] is [suffix]. *)
Fixpoint endswith (s suffix : string) : bool :=
  String.eqb s suffix ||
  match s with
  | EmptyString => false
  | String _ s' => endswith s' suffix
  end.

(** [s[:-1]] *)
Fixpoint drop_last (s : string) : string :=
  match s with
  | EmptyString => EmptyString
  | String c EmptyString => EmptyString
  | String c s' => String c (drop_last s')
  end.

(** Truth value of an argument that is a [str] or [None]. *)
Definition truthy (a : option string) : bool :=
  match a with
  | Some (String _ _) => true
  | Some EmptyString => false
  | None => false
  end.

End PyStr.

Import PyStr.

(** [all(xs)] on a list of truth values. *)
Definition all (xs : list bool) : bool := forallb (fun b => b) xs.

(** ** [__check] *)

Definition missing_msg : string :=
  "All parameters (metrics_url, logs_url, metrics_username, logs_username, access_token) must be provided".

Definition format_msg : string :=
  "Invalid metrics URL format. It should contain 'api/prom' in the URL.".

Definition none_msg : string := "argument of type 'NoneType' is not iterable".

(** Lines 40-46: the conversion to the influx line-protocol URL, with the
    us-central1 special case nested in it. *)
Definition to_influx (metrics_url : string) : string :=
  if contains "prometheus" metrics_url then
    let metrics_url := replace "prometheus" "influx" metrics_url in
    let metrics_url := replace "api/prom" "api/v1/push/influx/write" metrics_url in
    if contains "-us-central1" metrics_url
    then replace "-us-central1" "-prod-06-prod-us-central-0" metrics_url
    else metrics_url
  else metrics_url.

(** Lines 50-51: [u[:-1] if u.endswith('/') else u]. *)
Definition strip_slash (u : string) : string :=
  if endswith u "/" then drop_last u else u.

Definition __check
    (metrics_url logs_url metrics_username logs_username access_token : option string)
    : result (string * string) :=
  if negb (all [truthy metrics_url; truthy logs_url; truthy metrics_username;
                truthy logs_username; truthy access_token])
  then Raise (ValueError missing_msg)
  else
    match metrics_url, logs_url with
    | Some metrics_url, Some logs_url =>
        if negb (contains "api/prom" metrics_url)
        then Raise (ValueError format_msg)
        else
          let metrics_url := to_influx metrics_url in
          Ok (strip_slash metrics_url, strip_slash logs_url)
    | _, _ => Raise (TypeError none_msg)
    end.

(** ** Binary64 arithmetic, as Python's [float] and [int / int] do it *)

Module Float64.

Definition prec : Z := 53.
Definition emax : Z := 1024.

Definition float : Type := spec_float.

(** [x * y] and [x + y] on floats: rounded to nearest even, overflow gives
    an infinity and no exception. *)
Definition fmul (x y : float) : float := SFmul prec emax x y.
Definition fadd (x y : float) : float := SFadd prec emax x y.

(** An [int] as an exact, unrounded significand with exponent 0. *)
Definition exact (z : Z) : spec_float :=
  match z with
  | Z0 => S754_zero false
  | Zpos p => S754_finite false p 0
  | Zneg p => S754_finite true p 0
  end.

Definition overflow_msg : string := "integer division result too large for a float".
Definition zerodiv_msg : string := "division by zero".

(** [a / b] on two [int]s: the exact quotient rounded once to binary64;
    [OverflowError] when the rounded quotient is not finite. *)
Definition int_true_div (a b : Z) : result float :=
  if (b =? 0)%Z then Raise (ZeroDivisionError zerodiv_msg)
  else
    match SFdiv prec emax (exact a) (exact b) with
    | S754_infinity _ => Raise (OverflowError overflow_msg)
    | q => Ok q
    end.

(** The decimal literal [digits]e-[scale], rounded once to binary64. *)
Definition dec (digits : positive) (scale : nat) : float :=
  SFdiv prec emax (S754_finite false digits 0)
                  (S754_finite false (Pos.pow 10 (Pos.of_nat scale)) 0).

(** [x >= 0.0] *)
Definition ge0 (x : float) : bool :=
  match SFcompare x (S754_zero false) with
  | Some Gt | Some Eq => true
  | _ => false
  end.

End Float64.

Import Float64.

(** The value [__calculate_cost] returns: the [int] 0 or a [float]. *)
Inductive number : Type :=
| PyInt (z : Z)
| PyFloat (f : float).

(** [v >= 0] *)
Definition number_ge0 (v : number) : bool :=
  match v with
  | PyInt z => (0 <=? z)%Z
  | PyFloat f => ge0 f
  end.

(** ** The [dict] and [list] operations the module uses *)

Section Dict.
Context {V : Type}.

(** A [dict] literal with pairwise different keys, in insertion order. *)
Definition dict : Type := list (string * V).

(** [d.keys()] *)
Definition keys (d : dict) : list string := map fst d.

(** [k in d] *)
Definition dict_contains (k : string) (d : dict) : bool :=
  existsb (String.eqb k) (keys d).

(** [d[k]] *)
Fixpoint dict_get (k : string) (d : dict) : result V :=
  match d with
  | [] => Raise (KeyError k)
  | (k', v) :: d' => if String.eqb k k' then Ok v else dict_get k d'
  end.
End Dict.

Arguments dict V : clear implicits.

Section Sorted.
Context {A : Type} (key : A -> nat) (reverse : bool).

(** [y] has to come strictly before [x] in the output. *)
Definition before (y x : A) : bool :=
  if reverse then (key x <? key y)%nat else (key y <? key x)%nat.

Fixpoint insert (x : A) (l : list A) : list A :=
  match l with
  | [] => [x]
  | y :: l' => if before y x then y :: insert x l' else x :: l
  end.

(** [sorted(l, key=key, reverse=reverse)]: a stable sort, elements with
    equal keys keep their order whatever [reverse] is. *)
Fixpoint sorted (l : list A) : list A :=
  match l with
  | [] => []
  | x :: l' => insert x (sorted l')
  end.
End Sorted.

(** [l[0]] *)
Definition item0 {A : Type} (l : list A) : result A :=
  match l with
  | x :: _ => Ok x
  | [] => Raise (IndexError "list index out of range")
  end.

(** ** [__calculate_cost] *)

Definition prices : dict (float * float) :=
  [ ("gpt-4.1", (dec 2 3, dec 8 3));
    ("gpt-4.1-mini", (dec 4 4, dec 16 4));
    ("gpt-4.1-nano", (dec 1 4, dec 4 4));
    ("gpt-4.5-preview", (dec 75 3, dec 15 2));
    ("gpt-4o", (dec 25 4, dec 1 2));
    ("gpt-4o-mini", (dec 15 5, dec 6 4));
    ("o1", (dec 15 3, dec 6 2));
    ("o1-pro", (dec 15 2, dec 6 1));
    ("o3", (dec 1 2, dec 4 2));
    ("o3-mini", (dec 11 4, dec 44 4));
    ("o1-mini", (dec 11 4, dec 44 4));
    ("o4-mini", (dec 11 4, dec 44 4));
    ("gpt-4", (dec 3 2, dec 6 2));
    ("gpt-4-32k", (dec 6 2, dec 12 2));
    ("gpt-4-turbo", (dec 1 2, dec 3 2));
    ("gpt-4-turbo-2024-04-09", (dec 1 2, dec 3 2));
    ("gpt-4-0613", (dec 3 2, dec 6 2));
    ("gpt-3.5-turbo", (dec 5 4, dec 15 4));
    ("gpt-3.5-turbo-0125", (dec 5 4, dec 15 4));
    ("gpt-3.5-turbo-16k", (dec 3 3, dec 4 3));
    ("gpt-3.5-turbo-16k-0613", (dec 3 3, dec 4 3));
    ("gpt-3.5-turbo-instruct", (dec 15 4, dec 2 3));
    ("davinci-002", (dec 2 3, dec 2 3));
    ("babbage-002", (dec 4 4, dec 4 4));
    ("ada", (dec 4 4, dec 4 4));
    ("text-ada-001", (dec 4 4, dec 4 4));
    ("babbage", (dec 4 4, dec 4 4));
    ("text-babbage-001", (dec 4 4, dec 4 4));
    ("curie", (dec 20 4, dec 20 4));
    ("text-curie-001", (dec 20 4, dec 20 4));
    ("davinci", (dec 20 4, dec 20 4));
    ("text-davinci-001", (dec 20 4, dec 20 4));
    ("text-davinci-002", (dec 20 4, dec 20 4));
    ("text-davinci-003", (dec 20 4, dec 20 4)) ].

(** Line 121: [(prompt_tokens / 1000) * prompt_price
    + (sampled_tokens / 1000) * sampled_price], operands left to right. *)
Definition cost_of (prompt_tokens sampled_tokens : Z) (price : float * float)
    : result number :=
  let (prompt_price, sampled_price) := price in
  p <- int_true_div prompt_tokens 1000 ;;
  let lhs := fmul p prompt_price in
  s <- int_true_div sampled_tokens 1000 ;;
  let rhs := fmul s sampled_price in
  Ok (PyFloat (fadd lhs rhs)).

(** Line 111: [[m for m in prices.keys() if m in model]]. *)
Definition matching_models (model : string) : list string :=
  filter (fun m => contains m model) (keys prices).

Definition __calculate_cost (model : string) (prompt_tokens sampled_tokens : Z)
    : result number :=
  if dict_contains model prices then
    price <- dict_get model prices ;;
    cost_of prompt_tokens sampled_tokens price
  else
    match matching_models model with
    | _ :: _ =>
        longest_match <- item0 (sorted String.length true (matching_models model)) ;;
        price <- dict_get longest_match prices ;;
        cost_of prompt_tokens sampled_tokens price
    | [] => Ok (PyInt 0)
    end.

(** ** [__send_logs] and [__send_metrics] *)

Section Reporter.

(** [J] is the type of the JSON payload of a log push, [R] the type of the
    response object of the HTTP client. *)
Context {J R : Type}.

(** The [data=] or [json=] argument of [requests.post]. *)
Inductive payload : Type :=
| Data (body : string)
| Json (json : J).

(** The arguments of one [requests.post] call. *)
Record request : Type := {
  req_url : string;
  req_auth : string * string;
  req_headers : list (string * string);
  req_content : payload;
  req_timeout : Z
}.

(** What the HTTP client can raise: an exception derived from
    [requests.exceptions.RequestException], which the senders catch, or any
    other exception, which they do not. *)
Inductive client_exn : Type :=
| RequestException (err : string)
| OtherException (err : string).

(** The HTTP client: what [requests.post] does with a request, and what
    [response.raise_for_status()] does with the response it returned
    ([None]: it returns). *)
Record client : Type := {
  requests_post : request -> client_exn + R;
  raise_for_status : R -> option client_exn
}.

(** What a sender does to the outside: the requests it posts and the
    records it logs with [logger.error(format, err)], in order. *)
Inductive event : Type :=
| Posted (r : request)
| LoggedError (format err : string).

(** The body of the [try]: post, then check the status. *)
Definition post_and_check (c : client) (r : request) : option client_exn :=
  match requests_post c r with
  | inl e => Some e
  | inr response => raise_for_status c response
  end.

(** [except requests.exceptions.RequestException as err:
    logger.error(format, err)]: the records logged and the exception that
    leaves the function, if any. *)
Definition except_request_exception (format : string) (raised : option client_exn)
    : list event * option client_exn :=
  match raised with
  | None => ([], None)
  | Some (RequestException err) => ([LoggedError format err], None)
  | Some (OtherException err) => ([], Some (OtherException err))
  end.

Definition newline : string := String (ascii_of_nat 10) EmptyString.

Definition __send_logs (c : client) (logs_url logs_username access_token : string)
    (logs : J) : list event * option client_exn :=
  let r := {| req_url := logs_url;
              req_auth := (logs_username, access_token);
              req_headers := [("Content-Type", "application/json")];
              req_content := Json logs;
              req_timeout := 60 |} in
  let (logged, raised) :=
    except_request_exception "Error sending Logs: %s" (post_and_check c r) in
  (Posted r :: logged, raised).

Definition __send_metrics (c : client) (metrics_url metrics_username access_token : string)
    (metrics : list string) : list event * option client_exn :=
  let body := String.concat newline metrics in
  let r := {| req_url := metrics_url;
              req_auth := (metrics_username, access_token);
              req_headers := [("Content-Type", "text/plain")];
              req_content := Data body;
              req_timeout := 60 |} in
  let (logged, raised) :=
    except_request_exception "Error sending Metrics: %s" (post_and_check c r) in
  (Posted r :: logged, raised).

(** The requests among the events of a sender. *)
Definition posted (events : list event) : list request :=
  flat_map (fun e => match e with Posted r => [r] | LoggedError _ _ => [] end) events.

(** The error records among the events of a sender. *)
Definition logged_errors (events : list event) : list (string * string) :=
  flat_map (fun e => match e with Posted _ => [] | LoggedError f err => [(f, err)] end)
           events.

(** The [RequestException] that posting [r] runs into, from the post itself
    or from the status check. *)
Definition request_failure (c : client) (r : request) : option string :=
  match post_and_check c r with
  | Some (RequestException err) => Some err
  | _ => None
  end.

End Reporter.

Arguments payload J : clear implicits.
Arguments request J : clear implicits.
Arguments client J R : clear implicits.
Arguments event J : clear implicits.

(** ** The reference definitions of the specification *)

(** Section 4.2, step 4: the cost of one call for a selected price pair. *)
Definition spec_cost (promptTokens completionTokens : Z)
    (promptPrice completionPrice : float) : result number :=
  p <- int_true_div promptTokens 1000 ;;
  c <- int_true_div completionTokens 1000 ;;
  Ok (PyFloat (fadd (fmul p promptPrice) (fmul c completionPrice))).

(** A table key that is a substring of the model name. *)
Definition substring_key (modelName key : string) : Prop :=
  In key (keys prices) /\ contains key modelName = true.

(** Section 4.2, steps 1-3, as a relation between the arguments and the
    outcome: on a tie any maximal-length substring key may be selected. *)
Definition estimateCost_spec (modelName : string) (promptTokens completionTokens : Z)
    (r : result number) : Prop :=
  (exists promptPrice completionPrice,
      In (modelName, (promptPrice, completionPrice)) prices /\
      r = spec_cost promptTokens completionTokens promptPrice completionPrice)
  \/
  (~ In modelName (keys prices) /\
   exists key promptPrice completionPrice,
      substring_key modelName key /\
      (forall key', substring_key modelName key' ->
                    String.length key' <= String.length key) /\
      In (key, (promptPrice, completionPrice)) prices /\
      r = spec_cost promptTokens completionTokens promptPrice completionPrice)
  \/
  (~ In modelName (keys prices) /\
   (forall key, ~ substring_key modelName key) /\
   r = Ok (PyInt 0)).

(** Section 4.1, step 3: one trailing [/] is removed when there is one. *)
Definition one_slash_trimmed (url trimmed : string) : Prop :=
  (exists u, url = u ++ "/" /\ trimmed = u) \/
  ((forall u, url <> u ++ "/") /\ trimmed = url).

(** An argument that is the empty string or missing. *)
Definition empty_or_absent (a : option string) : Prop :=
  a = None \/ a = Some "".

(** A metrics URL argument without the ["api/prom"] marker. *)
Definition lacks_marker (a : option string) : Prop :=
  forall u, a = Some u -> contains "api/prom" u = false.

(** A valid input of [__check]: five non-empty strings, the first with the
    ["api/prom"] marker. *)
Definition valid_config (metricsUrl logsUrl metricsUsername logsUsername accessToken : string)
    : Prop :=
  metricsUrl <> "" /\ logsUrl <> "" /\ metricsUsername <> "" /\
  logsUsername <> "" /\ accessToken <> "" /\
  contains "api/prom" metricsUrl = true.

(** Some argument is empty or missing, or the marker is. *)
Definition bad_config (mu lu mn ln tok : option string) : Prop :=
  empty_or_absent mu \/ empty_or_absent lu \/ empty_or_absent mn \/
  empty_or_absent ln \/ empty_or_absent tok \/ lacks_marker mu.

(** Section 4.1, step 1 alone: the prometheus rewrite, the identity when
    ["prometheus"] is absent. *)
Definition prometheus_rewrite (metricsUrl : string) : string :=
  if contains "prometheus" metricsUrl
  then replace "api/prom" "api/v1/push/influx/write"
         (replace "prometheus" "influx" metricsUrl)
  else metricsUrl.

(** Concrete inputs used below. *)
Definition central_url : string :=
  "https://prometheus-prod-01-prod-us-central1.grafana.net/api/prom/push/".
Definition central_canonical : string :=
  "https://influx-prod-01-prod-prod-06-prod-us-central-0.grafana.net/api/v1/push/influx/write/push".
Definition mimir_url : string :=
  "https://mimir-prod-us-central1.grafana.net/api/prom/push".
Definition loki_url : string :=
  "https://logs-prod-006.grafana.net/loki/api/v1/push".

(** ** Auxiliary notions for the proofs *)

(** Two strings agree on their common length. *)
Definition compatible (u v : string) : bool := prefix u v || prefix v u.

(** [P] holds of every non-empty suffix of [s]. *)
Fixpoint forall_suffixes (P : string -> bool) (s : string) : bool :=
  match s with
  | EmptyString => true
  | String _ s' => P s && forall_suffixes P s'
  end.

(** No occurrence of [old] can start inside an inserted [new] or run from
    copied text into one. *)
Definition no_border (old new : string) : bool :=
  forall_suffixes (fun w => negb (compatible w new)) old &&
  forall_suffixes (fun v => negb (compatible old v)) new.

(** The number of [/] characters that end [s], counted from [n] on a
    left-to-right pass. *)
Fixpoint trail_acc (n : nat) (s : string) : nat :=
  match s with
  | EmptyString => n
  | String c s' => trail_acc (if Ascii.eqb c "/" then S n else 0) s'
  end.

Definition trailing_slashes (s : string) : nat := trail_acc 0 s.

(** The body of [__calculate_cost] with the table as a parameter, so that
    proofs about the control flow do not evaluate the table. *)
Definition calculate_cost_over (table : dict (float * float))
    (model : string) (prompt_tokens sampled_tokens : Z) : result number :=
  if dict_contains model table then
    price <- dict_get model table ;;
    cost_of prompt_tokens sampled_tokens price
  else
    match filter (fun m => contains m model) (keys table) with
    | _ :: _ =>
        longest_match <- item0 (sorted String.length true
                                  (filter (fun m => contains m model) (keys table))) ;;
        price <- dict_get longest_match table ;;
        cost_of prompt_tokens sampled_tokens price
    | [] => Ok (PyInt 0)
    end.

(** The sign of a float that is not a NaN. *)
Definition has_sign (s : bool) (x : float) : Prop :=
  match x with
  | S754_zero s' | S754_infinity s' | S754_finite s' _ _ => s' = s
  | S754_nan => False
  end.

(** A price that is a positive finite float. *)
Definition positive_price (x : float) : bool :=
  match x with
  | S754_finite false _ _ => true
  | _ => false
  end.

(** * Facts about the string operations *)

Section StringFacts.

Lemma prefix_cons (a b : ascii) (u v : string) :
  prefix (String a u) (String b v) = Ascii.eqb a b && prefix u v.
Proof.
  simpl. destruct (ascii_dec a b) as [->|Hne].
  - now rewrite Ascii.eqb_refl.
  - apply Ascii.eqb_neq in Hne. now rewrite Hne.
Qed.

Lemma append_snoc (u : string) (a : ascii) (w : string) :
  (u ++ String a "") ++ w = u ++ String a w.
Proof. induction u as [|c u IH]; [reflexivity|]. simpl. now rewrite IH. Qed.

Lemma prefix_nil_l (v : string) : prefix "" v = true.
Proof. now destruct v. Qed.

Lemma prefix_nil_r (u : string) : prefix u "" = true -> u = "".
Proof. destruct u; [reflexivity | discriminate]. Qed.

Lemma prefix_refl (u : string) : prefix u u = true.
Proof.
  induction u as [|a u IH]; [reflexivity|].
  now rewrite prefix_cons, Ascii.eqb_refl.
Qed.

Lemma prefix_app (u v : string) : prefix u (u ++ v) = true.
Proof.
  induction u as [|a u IH]; [now destruct v|].
  simpl append. now rewrite prefix_cons, Ascii.eqb_refl.
Qed.

Lemma contains_cons (sub : string) (c : ascii) (s : string) :
  contains sub (String c s) = prefix sub (String c s) || contains sub s.
Proof. reflexivity. Qed.

Lemma prefix_contains (sub s : string) :
  prefix sub s = true -> contains sub s = true.
Proof.
  destruct s as [|c s]; intros H.
  - exact H.
  - now rewrite contains_cons, H.
Qed.

Lemma contains_refl (s : string) : contains s s = true.
Proof. apply prefix_contains, prefix_refl. Qed.

(** A prefix of [n ++ r] and [n] agree on their common length. *)
Lemma prefix_app_compatible (w n r : string) :
  prefix w (n ++ r) = true -> compatible w n = true.
Proof.
  unfold compatible. revert n.
  induction w as [|a w IH]; intros n H; [now rewrite prefix_nil_l|].
  destruct n as [|b n].
  - rewrite (prefix_nil_l (String a w)). apply orb_true_r.
  - simpl append in H. rewrite prefix_cons in H.
    apply andb_true_iff in H as [Hab H].
    rewrite !prefix_cons, Hab. apply Ascii.eqb_eq in Hab. subst b.
    rewrite Ascii.eqb_refl. simpl. exact (IH n H).
Qed.

Lemma forall_suffixes_spec (P : string -> bool) (s : string) :
  forall_suffixes P s = true ->
  forall u w, s = u ++ w -> w <> "" -> P w = true.
Proof.
  induction s as [|c s IH]; intros H u w E Hw.
  - destruct u; [simpl in E; congruence | discriminate].
  - simpl in H. apply andb_true_iff in H as [Hs H].
    destruct u as [|a u].
    + simpl in E. now subst w.
    + simpl in E. injection E as _ E. exact (IH H u w E Hw).
Qed.

(** Dropping the last character keeps prefixes that are not the whole. *)
Lemma prefix_drop_last_back (sub s : string) :
  prefix sub (drop_last s) = true -> prefix sub s = true.
Proof.
  revert sub. induction s as [|c s IH]; intros sub H; [exact H|].
  destruct sub as [|a sub]; [apply prefix_nil_l|].
  destruct s as [|d s]; [discriminate|].
  change (drop_last (String c (String d s)))
    with (String c (drop_last (String d s))) in H.
  rewrite prefix_cons in *. apply andb_true_iff in H as [-> H].
  simpl. exact (IH sub H).
Qed.

Lemma contains_drop_last_back (sub s : string) :
  sub <> "" ->
  contains sub (drop_last s) = true -> contains sub s = true.
Proof.
  intros Hsub. induction s as [|c s IH]; intros H; [exact H|].
  destruct s as [|d s].
  - simpl in H. apply prefix_nil_r in H. contradiction.
  - change (drop_last (String c (String d s)))
      with (String c (drop_last (String d s))) in H.
    rewrite contains_cons in H. rewrite contains_cons.
    apply orb_true_iff in H as [H|H].
    + apply (prefix_drop_last_back sub (String c (String d s))) in H.
      now rewrite H.
    + rewrite (IH H). apply orb_true_r.
Qed.

Lemma contains_drop_last_false (sub s : string) :
  sub <> "" ->
  contains sub s = false -> contains sub (drop_last s) = false.
Proof.
  intros Hsub H. destruct (contains sub (drop_last s)) eqn:E; [|reflexivity].
  apply contains_drop_last_back in E; congruence.
Qed.

Lemma endswith_cons (c : ascii) (s suffix : string) :
  endswith (String c s) suffix
  = String.eqb (String c s) suffix || endswith s suffix.
Proof. reflexivity. Qed.

Lemma endswith_nil (suffix : string) :
  endswith "" suffix = String.eqb "" suffix.
Proof. simpl. apply orb_false_r. Qed.

(** A string that ends with [/] is its [s[:-1]] followed by [/]. *)
Lemma endswith_slash_split (s : string) :
  endswith s "/" = true -> s = drop_last s ++ "/".
Proof.
  induction s as [|c s IH]; intros H; [discriminate|].
  rewrite endswith_cons in H. apply orb_true_iff in H as [H|H].
  - apply String.eqb_eq in H. now rewrite H.
  - destruct s as [|d s]; [discriminate|].
    change (drop_last (String c (String d s)))
      with (String c (drop_last (String d s))).
    simpl append. f_equal. exact (IH H).
Qed.

Lemma endswith_app_slash (u : string) : endswith (u ++ "/") "/" = true.
Proof.
  induction u as [|c u IH]; [reflexivity|].
  simpl append. rewrite endswith_cons, IH. apply orb_true_r.
Qed.

Lemma drop_last_app_slash (u : string) : drop_last (u ++ "/") = u.
Proof.
  induction u as [|c u IH]; [reflexivity|].
  simpl append. destruct (u ++ "/") as [|d t] eqn:E.
  - destruct u; discriminate.
  - change (drop_last (String c (String d t)))
      with (String c (drop_last (String d t))).
    now rewrite IH.
Qed.

Lemma strip_slash_trimmed (url : string) :
  one_slash_trimmed url (strip_slash url).
Proof.
  unfold one_slash_trimmed, strip_slash.
  destruct (endswith url "/") eqn:E.
  - left. exists (drop_last url). split; [|reflexivity].
    now apply endswith_slash_split.
  - right. split; [|reflexivity].
    intros u ->. rewrite endswith_app_slash in E. discriminate.
Qed.

Lemma append_assoc (u v w : string) : (u ++ v) ++ w = u ++ (v ++ w).
Proof. induction u as [|c u IH]; [reflexivity|]. simpl. now rewrite IH. Qed.

Lemma endswith_app (u v : string) : endswith (u ++ v) v = true.
Proof.
  induction u as [|c u IH].
  - destruct v; simpl; [reflexivity|]. now rewrite Ascii.eqb_refl, String.eqb_refl.
  - simpl append. rewrite endswith_cons, IH. apply orb_true_r.
Qed.

(** A slash left after one was trimmed means there were two. *)
Lemma endswith_two_slashes (t : string) :
  endswith t "/" = true -> endswith (drop_last t) "/" = true ->
  endswith t "//" = true.
Proof.
  intros H1 H2.
  apply endswith_slash_split in H1. apply endswith_slash_split in H2.
  rewrite H1, H2, append_assoc. apply endswith_app.
Qed.

Lemma strip_slash_no_slash (t : string) :
  endswith t "//" = false -> endswith (strip_slash t) "/" = false.
Proof.
  intros H. unfold strip_slash. destruct (endswith t "/") eqn:E; [|exact E].
  destruct (endswith (drop_last t) "/") eqn:F; [|reflexivity].
  rewrite (endswith_two_slashes t E F) in H. discriminate.
Qed.

Lemma strip_slash_fixed (t : string) :
  endswith t "/" = false -> strip_slash t = t.
Proof. intros H. unfold strip_slash. now rewrite H. Qed.

Lemma strip_slash_nonempty (t : string) :
  t <> "" -> t <> "/" -> strip_slash t <> "".
Proof.
  intros H0 H1. unfold strip_slash. destruct (endswith t "/") eqn:E; [|exact H0].
  intros D. apply endswith_slash_split in E. rewrite D in E. contradiction.
Qed.

Lemma endswith_two_trail (t : string) :
  endswith t "//" = true -> forall n, 2 <= trail_acc n t.
Proof.
  induction t as [|c t IH]; intros H n; [discriminate|].
  rewrite endswith_cons in H. apply orb_true_iff in H as [H|H].
  - apply String.eqb_eq in H. rewrite H. simpl. lia.
  - simpl. now apply IH.
Qed.

Lemma trail_two_endswith (t : string) :
  forall n, 2 <= trail_acc n t ->
            endswith t "//" = true \/ (t = "/" /\ 1 <= n) \/ (t = "" /\ 2 <= n).
Proof.
  induction t as [|c t IH]; intros n H.
  - right. right. split; [reflexivity|exact H].
  - simpl in H. apply IH in H as [H|[[-> H]|[-> H]]].
    + left. rewrite endswith_cons, H. apply orb_true_r.
    + destruct (Ascii.eqb c "/") eqn:C; [|lia]. apply Ascii.eqb_eq in C. subst c.
      left. reflexivity.
    + destruct (Ascii.eqb c "/") eqn:C; [|lia]. apply Ascii.eqb_eq in C. subst c.
      right. left. split; [reflexivity|lia].
Qed.

Lemma trailing_slashes_two (t : string) :
  endswith t "//" = true <-> 2 <= trailing_slashes t.
Proof.
  split.
  - intros H. now apply endswith_two_trail.
  - intros H. apply trail_two_endswith in H as [H|[[_ H]|[_ H]]]; [exact H|lia|lia].
Qed.

Lemma eqb_two_chars (c d : ascii) (s : string) :
  String.eqb (String c (String d s)) "/" = false.
Proof. simpl. apply andb_false_r. Qed.

(** Trimming the last character of [s] keeps a prefix [sub] whose own
    last character is not the one trimmed. *)
Lemma prefix_drop_last_slash (s : string) :
  forall sub, prefix sub s = true -> endswith s "/" = true ->
              endswith sub "/" = false -> prefix sub (drop_last s) = true.
Proof.
  induction s as [|c s IH]; intros sub P E N; [discriminate|].
  destruct sub as [|a sub]; [apply prefix_nil_l|].
  rewrite prefix_cons in P. apply andb_true_iff in P as [A P].
  apply Ascii.eqb_eq in A. subst a.
  rewrite endswith_cons in E, N. apply orb_false_iff in N as [N0 N].
  destruct s as [|d s].
  - apply prefix_nil_r in P. subst sub.
    apply orb_true_iff in E as [E|E]; [congruence|simpl in E; discriminate].
  - change (drop_last (String c (String d s)))
      with (String c (drop_last (String d s))).
    rewrite prefix_cons, Ascii.eqb_refl. simpl andb.
    rewrite eqb_two_chars in E. now apply IH.
Qed.

Lemma contains_drop_last_slash (sub s : string) :
  endswith sub "/" = false ->
  contains sub s = true -> endswith s "/" = true ->
  contains sub (drop_last s) = true.
Proof.
  intros N. induction s as [|c s IH]; intros C E; [discriminate|].
  destruct s as [|d s].
  - rewrite contains_cons in C. apply orb_true_iff in C as [C|C].
    + apply prefix_contains. now apply prefix_drop_last_slash.
    + simpl in C. apply prefix_nil_r in C. subst sub. reflexivity.
  - rewrite contains_cons in C. apply orb_true_iff in C as [C|C].
    + apply prefix_contains. now apply prefix_drop_last_slash.
    + change (drop_last (String c (String d s)))
        with (String c (drop_last (String d s))).
      rewrite contains_cons. rewrite IH; [apply orb_true_r|exact C|].
      rewrite endswith_cons, eqb_two_chars in E. exact E.
Qed.

Lemma contains_strip_slash (sub s : string) :
  endswith sub "/" = false ->
  contains sub s = true -> contains sub (strip_slash s) = true.
Proof.
  intros N C. unfold strip_slash. destruct (endswith s "/") eqn:E; [|exact C].
  now apply contains_drop_last_slash.
Qed.

Lemma contains_strip_slash_false (sub s : string) :
  sub <> "" ->
  contains sub s = false -> contains sub (strip_slash s) = false.
Proof.
  intros N C. unfold strip_slash. destruct (endswith s "/"); [|exact C].
  now apply contains_drop_last_false.
Qed.

End StringFacts.

(** * Facts about [str.replace] *)

Section ReplaceFacts.

Variables old new : string.

Local Notation "'scan'" := (replace_from old new).

Lemma scan_step (c : ascii) (s : string) :
  scan 0 (String c s)
  = if prefix old (String c s)
    then new ++ scan (String.length old - 1) s
    else String c (scan 0 s).
Proof. reflexivity. Qed.

Section NoBorder.

Hypothesis old_nonempty : old <> "".
Hypothesis borders : no_border old new = true.

Lemma old_suffix_clash (u w r : string) :
  old = u ++ w -> w <> "" -> prefix w (new ++ r) = false.
Proof.
  intros E Hw. unfold no_border in borders.
  apply andb_true_iff in borders as [Ha _].
  pose proof (forall_suffixes_spec _ _ Ha u w E Hw) as Hc.
  cbv beta in Hc. destruct (prefix w (new ++ r)) eqn:P; [|reflexivity].
  apply prefix_app_compatible in P. rewrite P in Hc. discriminate.
Qed.

Lemma new_suffix_clash (u v r : string) :
  new = u ++ v -> v <> "" -> prefix old (v ++ r) = false.
Proof.
  intros E Hv. unfold no_border in borders.
  apply andb_true_iff in borders as [_ Hb].
  pose proof (forall_suffixes_spec _ _ Hb u v E Hv) as Hc.
  cbv beta in Hc. destruct (prefix old (v ++ r)) eqn:P; [|reflexivity].
  apply prefix_app_compatible in P. rewrite P in Hc. discriminate.
Qed.

(** A suffix of [old] that starts the output starts the input too: it
    was copied character by character. *)
Lemma scan_prefix_back (w : string) :
  forall u s, old = u ++ w ->
              prefix w (scan 0 s) = true -> prefix w s = true.
Proof.
  induction w as [|a w IH]; intros u s E H; [apply prefix_nil_l|].
  destruct s as [|c s]; [discriminate|].
  rewrite scan_step in H. destruct (prefix old (String c s)) eqn:M.
  - rewrite (old_suffix_clash u (String a w)) in H;
      [discriminate | exact E | discriminate].
  - rewrite prefix_cons in *. apply andb_true_iff in H as [-> H].
    apply (IH (u ++ String a "") s); [|exact H].
    rewrite append_snoc. exact E.
Qed.

Lemma scan_not_prefix (s : string) : prefix old (scan 0 s) = false.
Proof.
  destruct (prefix old (scan 0 s)) eqn:P; [|reflexivity].
  pose proof (scan_prefix_back old "" s eq_refl P) as M.
  destruct s as [|c s].
  - apply prefix_nil_r in M. contradiction.
  - rewrite scan_step, M in P.
    rewrite (old_suffix_clash "" old) in P; [discriminate|reflexivity|assumption].
Qed.

Lemma new_suffix_free (v : string) :
  forall u t, new = u ++ v ->
              contains old t = false -> contains old (v ++ t) = false.
Proof.
  induction v as [|b v IH]; intros u t E H; [exact H|].
  simpl append. rewrite contains_cons. apply orb_false_iff. split.
  - apply (new_suffix_clash u (String b v) t); [exact E|discriminate].
  - apply (IH (u ++ String b "")); [|exact H].
    rewrite append_snoc. exact E.
Qed.

(** After the replacement no occurrence of [old] is left. *)
Lemma scan_removes (s : string) :
  forall k, contains old (scan k s) = false.
Proof.
  induction s as [|c s IH]; intros k.
  - simpl. destruct old; [contradiction|reflexivity].
  - destruct k as [|k]; [|apply IH].
    pose proof (scan_not_prefix (String c s)) as B.
    rewrite scan_step in *. destruct (prefix old (String c s)).
    + apply (new_suffix_free new ""); [reflexivity|apply IH].
    + rewrite contains_cons, B. apply IH.
Qed.

Lemma replace_removes (s : string) :
  contains old (replace old new s) = false.
Proof.
  pose proof (scan_removes s 0) as H. unfold replace.
  destruct old; [contradiction|exact H].
Qed.

End NoBorder.

Section Trailing.

(** [new] is not empty and does not end with [/]. *)
Hypothesis new_resets : forall n, trail_acc n new = 0.

Lemma trail_acc_app (n : nat) (u v : string) :
  trail_acc n (u ++ v) = trail_acc (trail_acc n u) v.
Proof. revert n. induction u as [|c u IH]; intros n; [reflexivity|apply IH]. Qed.

(** The replacement does not lengthen the run of slashes that ends the
    string. *)
Lemma scan_trail (s : string) :
  forall k n m,
    (k = 0 -> n <= m) -> (k <> 0 -> n = 0) ->
    trail_acc n (scan k s) <= trail_acc m s.
Proof.
  induction s as [|c s IH]; intros k n m H0 H1.
  - simpl. destruct k; [now apply H0|]. rewrite H1; [lia|discriminate].
  - destruct k as [|k].
    + specialize (H0 eq_refl). rewrite scan_step.
      destruct (prefix old (String c s)).
      * rewrite trail_acc_app, new_resets. simpl trail_acc at 2.
        apply IH; intros; [lia|reflexivity].
      * simpl trail_acc. apply IH; [intros _|congruence].
        destruct (Ascii.eqb c "/"); lia.
    + cbn [replace_from trail_acc]. rewrite (H1 ltac:(discriminate)).
      apply IH; intros; [lia|reflexivity].
Qed.

Lemma replace_trail (s : string) :
  old <> "" ->
  trailing_slashes (replace old new s) <= trailing_slashes s.
Proof.
  intros Hold. unfold replace, trailing_slashes.
  destruct old eqn:E; [contradiction|]. rewrite <- E.
  apply scan_trail; intros; [lia|congruence].
Qed.

End Trailing.

End ReplaceFacts.

(** * [__check] *)

Section CheckFacts.

Lemma truthy_false (a : option string) :
  truthy a = false <-> empty_or_absent a.
Proof.
  unfold empty_or_absent. destruct a as [[|c s]|]; simpl; split; intros H;
    try reflexivity; try discriminate; auto.
  destruct H; discriminate.
Qed.

Lemma truthy_true (a : option string) :
  truthy a = true <-> exists s, a = Some s /\ s <> "".
Proof.
  destruct a as [[|c s]|]; simpl; split; intros H; try discriminate.
  - destruct H as (s & E & N). injection E as <-. contradiction.
  - exists (String c s). split; [reflexivity|discriminate].
  - reflexivity.
  - destruct H as (s & E & _). discriminate.
Qed.

Lemma truthy_some (s : string) : s <> "" -> truthy (Some s) = true.
Proof. intros H. apply truthy_true. now exists s. Qed.

(** On a valid input [__check] returns, and what it returns. *)
Lemma check_valid (m l a b c : string) :
  valid_config m l a b c ->
  __check (Some m) (Some l) (Some a) (Some b) (Some c)
  = Ok (strip_slash (to_influx m), strip_slash l).
Proof.
  intros (Hm & Hl & Ha & Hb & Hc & Hp). unfold __check, all, forallb.
  rewrite !truthy_some by assumption. simpl. now rewrite Hp.
Qed.

Lemma to_influx_absent (m : string) :
  contains "prometheus" m = false -> to_influx m = m.
Proof. intros H. unfold to_influx. now rewrite H. Qed.

Lemma to_influx_trail (m : string) :
  trailing_slashes (to_influx m) <= trailing_slashes m.
Proof.
  unfold to_influx. destruct (contains "prometheus" m); [|lia].
  set (m1 := replace "prometheus" "influx" m).
  set (m2 := replace "api/prom" "api/v1/push/influx/write" m1).
  assert (H1 : trailing_slashes m1 <= trailing_slashes m)
    by (apply replace_trail; [reflexivity|discriminate]).
  assert (H2 : trailing_slashes m2 <= trailing_slashes m1)
    by (apply replace_trail; [reflexivity|discriminate]).
  destruct (contains "-us-central1" m2); [|lia].
  etransitivity; [apply replace_trail; [reflexivity|discriminate]|lia].
Qed.

Lemma to_influx_two_slashes (m : string) :
  endswith m "//" = false -> endswith (to_influx m) "//" = false.
Proof.
  intros H. destruct (endswith (to_influx m) "//") eqn:E; [|reflexivity].
  apply trailing_slashes_two in E. pose proof (to_influx_trail m) as T.
  assert (F : 2 <= trailing_slashes m) by lia.
  apply trailing_slashes_two in F. congruence.
Qed.

Lemma region_marker_removed (s : string) :
  contains "-us-central1"
    (replace "-us-central1" "-prod-06-prod-us-central-0" s) = false.
Proof. apply replace_removes; [discriminate|reflexivity]. Qed.

End CheckFacts.

(** C2: [__check] raises exactly when one of the five arguments is empty or
    absent or the metrics URL lacks ["api/prom"]; what it raises is the
    [ValueError] of one of the two guards (the specification's
    ConfigurationError); otherwise it returns the pair of canonical URLs. *)
Theorem check_raises_iff (mu lu mn ln tok : option string) :
  ((exists e, __check mu lu mn ln tok = Raise e) <-> bad_config mu lu mn ln tok) /\
  (forall e, __check mu lu mn ln tok = Raise e ->
             e = ValueError missing_msg \/ e = ValueError format_msg) /\
  (~ bad_config mu lu mn ln tok ->
   exists m l, mu = Some m /\ lu = Some l /\
               __check mu lu mn ln tok
               = Ok (strip_slash (to_influx m), strip_slash l)).
Proof.
  assert (Hgood : ~ bad_config mu lu mn ln tok ->
            exists m l a b c, mu = Some m /\ lu = Some l /\ mn = Some a /\
              ln = Some b /\ tok = Some c /\ valid_config m l a b c).
  { unfold bad_config. intros N.
    assert (T : forall x, ~ empty_or_absent x -> exists s, x = Some s /\ s <> "").
    { intros x Hx. apply truthy_true. destruct (truthy x) eqn:E; [reflexivity|].
      apply truthy_false in E. contradiction. }
    destruct (T mu) as (m & -> & Hm); [tauto|].
    destruct (T lu) as (l & -> & Hl); [tauto|].
    destruct (T mn) as (a & -> & Ha); [tauto|].
    destruct (T ln) as (b & -> & Hb); [tauto|].
    destruct (T tok) as (c & -> & Hc); [tauto|].
    exists m, l, a, b, c. repeat (split; [reflexivity|]).
    unfold valid_config. repeat (split; [assumption|]).
    destruct (contains "api/prom" m) eqn:P; [reflexivity|].
    exfalso. apply N. do 5 right. intros u [= <-]. exact P. }
  assert (Hbad : bad_config mu lu mn ln tok ->
            __check mu lu mn ln tok = Raise (ValueError missing_msg) \/
            __check mu lu mn ln tok = Raise (ValueError format_msg)).
  { unfold bad_config, __check, all, forallb. intros B.
    destruct (truthy mu) eqn:E1; [|now left].
    destruct (truthy lu) eqn:E2; [|now left].
    destruct (truthy mn) eqn:E3; [|now left].
    destruct (truthy ln) eqn:E4; [|now left].
    destruct (truthy tok) eqn:E5; [|now left].
    assert (L : lacks_marker mu).
    { destruct B as [B|[B|[B|[B|[B|B]]]]]; try exact B;
        apply truthy_false in B; congruence. }
    apply truthy_true in E1 as (m & -> & _).
    apply truthy_true in E2 as (l & -> & _).
    simpl. rewrite (L m eq_refl). now right. }
  assert (Hdec : bad_config mu lu mn ln tok \/ ~ bad_config mu lu mn ln tok).
  { unfold bad_config.
    assert (D : forall x, empty_or_absent x \/ ~ empty_or_absent x).
    { intros x. destruct (truthy x) eqn:E.
      - right. intros B. apply truthy_false in B. congruence.
      - left. now apply truthy_false. }
    assert (M : lacks_marker mu \/ ~ lacks_marker mu).
    { unfold lacks_marker. destruct mu as [m|].
      - destruct (contains "api/prom" m) eqn:P.
        + right. intros L. specialize (L m eq_refl). congruence.
        + left. intros u [= <-]. exact P.
      - left. intros u [=]. }
    destruct (D mu), (D lu), (D mn), (D ln), (D tok), M; tauto. }
  split; [split|split].
  - intros [e He]. destruct Hdec as [B|N]; [exact B|].
    destruct (Hgood N) as (m & l & a & b & c & -> & -> & -> & -> & -> & V).
    rewrite (check_valid _ _ _ _ _ V) in He. discriminate.
  - intros B. destruct (Hbad B) as [H|H]; rewrite H; eauto.
  - intros e He. destruct Hdec as [B|N].
    + destruct (Hbad B) as [H|H]; rewrite H in He; injection He as <-; auto.
    + destruct (Hgood N) as (m & l & a & b & c & -> & -> & -> & -> & -> & V).
      rewrite (check_valid _ _ _ _ _ V) in He. discriminate.
  - intros N.
    destruct (Hgood N) as (m & l & a & b & c & -> & -> & -> & -> & -> & V).
    exists m, l. repeat (split; [reflexivity|]). now apply check_valid.
Qed.

(** Validity of a concrete configuration, by evaluation. *)
Ltac valid_config_tac := unfold valid_config; repeat split; discriminate.

Lemma check_raises_iff_witness :
  exists m l,
    __check (Some mimir_url) (Some loki_url) (Some "123") (Some "456") (Some "token")
    = Ok (m, l).
Proof.
  destruct (proj2 (proj2 (check_raises_iff (Some mimir_url) (Some loki_url)
                            (Some "123") (Some "456") (Some "token"))))
    as (m & l & _ & _ & H).
  - unfold bad_config, empty_or_absent, lacks_marker.
    intros [[H|H]|[[H|H]|[[H|H]|[[H|H]|[[H|H]|H]]]]]; try discriminate H.
    specialize (H mimir_url eq_refl). vm_compute in H. discriminate H.
  - exists (strip_slash (to_influx m)), (strip_slash l). exact H.
Defined.

(** C5, as amended: on a valid input whose metrics URL contains
    ["prometheus"], when the URL after the prometheus rewrite contains
    ["-us-central1"] the canonical metrics URL is that URL with the marker
    replaced by ["-prod-06-prod-us-central-0"] (and one trailing slash
    trimmed), and it no longer contains ["-us-central1"]; on a valid input
    whose metrics URL does not contain ["prometheus"] the canonical metrics
    URL is the given one with one trailing slash trimmed, so a region marker
    in it is left as it is. *)
Theorem check_region_alias (m l a b c : string) :
  valid_config m l a b c ->
  (contains "prometheus" m = true ->
   contains "-us-central1" (prometheus_rewrite m) = true ->
   exists m',
     __check (Some m) (Some l) (Some a) (Some b) (Some c) = Ok (m', strip_slash l) /\
     m' = strip_slash (replace "-us-central1" "-prod-06-prod-us-central-0"
                         (prometheus_rewrite m)) /\
     contains "-us-central1" m' = false) /\
  (contains "prometheus" m = false ->
   exists m',
     __check (Some m) (Some l) (Some a) (Some b) (Some c) = Ok (m', strip_slash l) /\
     one_slash_trimmed m m' /\
     (contains "-us-central1" m = true -> contains "-us-central1" m' = true) /\
     (contains "-prod-06-prod-us-central-0" m = false ->
      contains "-prod-06-prod-us-central-0" m' = false)).
Proof.
  intros V. split.
  - intros P R. eexists. split; [|split; [reflexivity|]].
    + rewrite (check_valid _ _ _ _ _ V). unfold to_influx, prometheus_rewrite in *.
      rewrite P in *. now rewrite R.
    + apply contains_strip_slash_false; [discriminate|].
      apply region_marker_removed.
  - intros P. exists (strip_slash m). split; [|split; [|split]].
    + rewrite (check_valid _ _ _ _ _ V). now rewrite to_influx_absent.
    + apply strip_slash_trimmed.
    + intros R. now apply contains_strip_slash.
    + intros N. apply contains_strip_slash_false; [discriminate|exact N].
Qed.

Lemma check_region_alias_witness :
  (exists m',
     __check (Some central_url) (Some loki_url) (Some "123") (Some "456") (Some "token")
     = Ok (m', strip_slash loki_url) /\
     m' = strip_slash (replace "-us-central1" "-prod-06-prod-us-central-0"
                         (prometheus_rewrite central_url)) /\
     contains "-us-central1" m' = false) /\
  (exists m',
     __check (Some mimir_url) (Some loki_url) (Some "123") (Some "456") (Some "token")
     = Ok (m', strip_slash loki_url) /\
     one_slash_trimmed mimir_url m' /\
     (contains "-us-central1" mimir_url = true -> contains "-us-central1" m' = true) /\
     (contains "-prod-06-prod-us-central-0" mimir_url = false ->
      contains "-prod-06-prod-us-central-0" m' = false)).
Proof.
  split.
  - apply (check_region_alias central_url loki_url "123" "456" "token").
    + valid_config_tac.
    + reflexivity.
    + reflexivity.
  - apply (check_region_alias mimir_url loki_url "123" "456" "token").
    + valid_config_tac.
    + reflexivity.
Defined.

(** C5, as stated, fails: without ["prometheus"] in the metrics URL the
    region marker stays in the canonical metrics URL. *)
Lemma check_region_alias_counterexample :
  valid_config mimir_url loki_url "123" "456" "token" /\
  contains "-us-central1" (prometheus_rewrite mimir_url) = true /\
  __check (Some mimir_url) (Some loki_url) (Some "123") (Some "456") (Some "token")
  = Ok (mimir_url, loki_url) /\
  contains "-us-central1" mimir_url = true /\
  mimir_url <> strip_slash (replace "-us-central1" "-prod-06-prod-us-central-0"
                              (prometheus_rewrite mimir_url)).
Proof.
  unfold valid_config. repeat split; discriminate.
Qed.

(** C6, as amended: on a valid input neither of whose URLs ends with two
    slashes, both returned strings end with no trailing slash. *)
Theorem check_no_trailing_slash (m l a b c : string) :
  valid_config m l a b c ->
  endswith m "//" = false ->
  endswith l "//" = false ->
  exists m' l',
    __check (Some m) (Some l) (Some a) (Some b) (Some c) = Ok (m', l') /\
    endswith m' "/" = false /\ endswith l' "/" = false.
Proof.
  intros V Hm Hl. exists (strip_slash (to_influx m)), (strip_slash l).
  split; [now apply check_valid|]. split.
  - apply strip_slash_no_slash. now apply to_influx_two_slashes.
  - now apply strip_slash_no_slash.
Qed.

Lemma check_no_trailing_slash_witness :
  exists m' l',
    __check (Some central_url) (Some "https://logs-prod-006.grafana.net/loki/api/v1/push/")
            (Some "123") (Some "456") (Some "token") = Ok (m', l') /\
    endswith m' "/" = false /\ endswith l' "/" = false.
Proof.
  apply (check_no_trailing_slash central_url
           "https://logs-prod-006.grafana.net/loki/api/v1/push/" "123" "456" "token").
  - valid_config_tac.
  - reflexivity.
  - reflexivity.
Defined.

(** C6, as stated, fails: only one slash is trimmed, so a URL that ends
    with two is returned with a trailing slash. *)
Lemma check_no_trailing_slash_counterexample :
  valid_config "https://mimir.example.net/api/prom//" "https://logs.example.net//"
               "123" "456" "token" /\
  __check (Some "https://mimir.example.net/api/prom//") (Some "https://logs.example.net//")
          (Some "123") (Some "456") (Some "token")
  = Ok ("https://mimir.example.net/api/prom/", "https://logs.example.net/") /\
  endswith "https://mimir.example.net/api/prom/" "/" = true /\
  endswith "https://logs.example.net/" "/" = true.
Proof.
  unfold valid_config. repeat split; discriminate.
Qed.

(** C7, as amended: on a valid input whose metrics URL does not contain
    ["prometheus"], neither of whose URLs ends with two slashes and whose
    logs URL is not the single slash, [__check] succeeds, and applied again
    to the two URLs it returned, with the same credentials, it succeeds and
    returns the same two URLs. *)
Theorem check_reapply (m l a b c : string) :
  valid_config m l a b c ->
  contains "prometheus" m = false ->
  endswith m "//" = false ->
  endswith l "//" = false ->
  l <> "/" ->
  exists m' l',
    __check (Some m) (Some l) (Some a) (Some b) (Some c) = Ok (m', l') /\
    __check (Some m') (Some l') (Some a) (Some b) (Some c) = Ok (m', l').
Proof.
  intros V P Hm Hl L1. pose proof V as (Nm & Nl & Na & Nb & Nc & M).
  exists (strip_slash m), (strip_slash l). split.
  - rewrite (check_valid _ _ _ _ _ V). now rewrite to_influx_absent.
  - assert (M' : contains "api/prom" (strip_slash m) = true)
      by (apply contains_strip_slash; [reflexivity|exact M]).
    assert (V' : valid_config (strip_slash m) (strip_slash l) a b c).
    { unfold valid_config. repeat split; try assumption.
      - intros E. rewrite E in M'. discriminate.
      - now apply strip_slash_nonempty. }
    rewrite (check_valid _ _ _ _ _ V').
    rewrite to_influx_absent
      by (apply contains_strip_slash_false; [discriminate|exact P]).
    rewrite (strip_slash_fixed (strip_slash m))
      by now apply strip_slash_no_slash.
    rewrite (strip_slash_fixed (strip_slash l))
      by now apply strip_slash_no_slash.
    reflexivity.
Qed.

Lemma check_reapply_witness :
  exists m' l',
    __check (Some "https://mimir-prod-us-central1.grafana.net/api/prom/push/")
            (Some "https://logs-prod-006.grafana.net/loki/api/v1/push/")
            (Some "123") (Some "456") (Some "token") = Ok (m', l') /\
    __check (Some m') (Some l') (Some "123") (Some "456") (Some "token") = Ok (m', l').
Proof.
  apply (check_reapply "https://mimir-prod-us-central1.grafana.net/api/prom/push/"
           "https://logs-prod-006.grafana.net/loki/api/v1/push/" "123" "456" "token").
  - valid_config_tac.
  - reflexivity.
  - reflexivity.
  - reflexivity.
  - discriminate.
Defined.

(** C7, as stated, fails: the canonical URL of a prometheus endpoint has
    lost the ["api/prom"] marker, so applying [__check] to it raises. *)
Lemma check_reapply_counterexample :
  valid_config central_url loki_url "123" "456" "token" /\
  __check (Some central_url) (Some loki_url) (Some "123") (Some "456") (Some "token")
  = Ok (central_canonical, loki_url) /\
  __check (Some central_canonical) (Some loki_url) (Some "123") (Some "456") (Some "token")
  = Raise (ValueError format_msg).
Proof.
  unfold valid_config. repeat split; discriminate.
Qed.

(** C8: with the us-central1 prometheus endpoint as metrics URL and the
    other four arguments non-empty, [__check] succeeds; the canonical
    metrics URL has ["influx"] for ["prometheus"],
    ["api/v1/push/influx/write"] for ["api/prom"] and
    ["-prod-06-prod-us-central-0"] for ["-us-central1"], and no trailing
    slash. *)
Theorem check_central_url (l a b c : string) :
  l <> "" -> a <> "" -> b <> "" -> c <> "" ->
  __check (Some central_url) (Some l) (Some a) (Some b) (Some c)
  = Ok (central_canonical, strip_slash l) /\
  central_canonical
  = drop_last (replace "-us-central1" "-prod-06-prod-us-central-0"
                 (replace "api/prom" "api/v1/push/influx/write"
                    (replace "prometheus" "influx" central_url))) /\
  contains "prometheus" central_canonical = false /\
  contains "api/prom" central_canonical = false /\
  contains "-us-central1" central_canonical = false /\
  contains "influx" central_canonical = true /\
  contains "api/v1/push/influx/write" central_canonical = true /\
  contains "-prod-06-prod-us-central-0" central_canonical = true /\
  endswith central_canonical "/" = false.
Proof.
  intros Hl Ha Hb Hc. split; [|repeat split].
  rewrite check_valid; [reflexivity|].
  unfold valid_config. repeat split; try assumption; discriminate.
Qed.

Lemma check_central_url_witness :
  __check (Some central_url) (Some loki_url) (Some "123") (Some "456") (Some "token")
  = Ok (central_canonical, loki_url).
Proof.
  apply (check_central_url loki_url "123" "456" "token"); discriminate.
Defined.

(** C9: on a valid input the canonical logs URL is the given logs URL with
    one trailing slash removed when there is one, and nothing else: no
    rewrite step touches it, also when it contains ["prometheus"],
    ["api/prom"] or the region marker. *)
Theorem check_logs_url_frame (m l a b c : string) :
  valid_config m l a b c ->
  exists m' l',
    __check (Some m) (Some l) (Some a) (Some b) (Some c) = Ok (m', l') /\
    one_slash_trimmed l l' /\
    (contains "prometheus" l = true -> contains "prometheus" l' = true) /\
    (contains "api/prom" l = true -> contains "api/prom" l' = true) /\
    (contains "-us-central1" l = true -> contains "-us-central1" l' = true).
Proof.
  intros V. exists (strip_slash (to_influx m)), (strip_slash l).
  split; [now apply check_valid|]. split; [apply strip_slash_trimmed|].
  repeat split; intros H; apply contains_strip_slash; auto.
Qed.

Lemma check_logs_url_frame_witness :
  exists m' l',
    __check (Some central_url) (Some central_url) (Some "123") (Some "456") (Some "token")
    = Ok (m', l') /\
    one_slash_trimmed central_url l' /\
    (contains "prometheus" central_url = true -> contains "prometheus" l' = true) /\
    (contains "api/prom" central_url = true -> contains "api/prom" l' = true) /\
    (contains "-us-central1" central_url = true -> contains "-us-central1" l' = true).
Proof.
  apply (check_logs_url_frame central_url central_url "123" "456" "token").
  valid_config_tac.
Defined.

(** * The [dict] and [sorted] operations *)

Section DictFacts.
Context {V : Type}.
Implicit Types (d : dict V) (k : string).

Lemma dict_contains_In k d : dict_contains k d = true <-> In k (keys d).
Proof.
  unfold dict_contains. rewrite existsb_exists. split.
  - intros (x & Hx & E). apply String.eqb_eq in E. now subst x.
  - intros H. exists k. split; [exact H|apply String.eqb_refl].
Qed.

Lemma dict_contains_not_In k d : dict_contains k d = false <-> ~ In k (keys d).
Proof.
  rewrite <- dict_contains_In. destruct (dict_contains k d); split; congruence.
Qed.

(** [d[k]] does not raise for a key of [d], and gives a value stored
    under [k]. *)
Lemma dict_get_In k d :
  In k (keys d) -> exists v, dict_get k d = Ok v /\ In (k, v) d.
Proof.
  induction d as [|[k' v'] d IH]; intros H; [contradiction|].
  simpl. destruct (String.eqb k k') eqn:E.
  - apply String.eqb_eq in E. subst k'. exists v'. auto.
  - destruct H as [H|H].
    + simpl in H. subst k'. rewrite String.eqb_refl in E. discriminate.
    + destruct (IH H) as (v & G & I). exists v. auto.
Qed.
End DictFacts.

Section SortedFacts.
Context {A : Type} (key : A -> nat).

Local Notation "'sorted_desc'" := (sorted key true).

Lemma sorted_nil_inv (l : list A) : sorted_desc l = [] -> l = [].
Proof.
  destruct l as [|x l]; [reflexivity|]. cbn [sorted].
  destruct (sorted_desc l) as [|y r]; cbn [insert]; [discriminate|].
  destruct (before key true y x); discriminate.
Qed.

(** The first element of the descending stable sort is the earliest
    element of the list with the largest key. *)
Lemma sorted_head (l : list A) :
  forall x r, sorted_desc l = x :: r ->
  exists pre post,
    l = (pre ++ x :: post)%list /\
    (forall y, In y pre -> key y < key x) /\
    (forall y, In y post -> key y <= key x).
Proof.
  induction l as [|a l IH]; intros x r H; [discriminate|].
  cbn [sorted] in H. destruct (sorted_desc l) as [|y t] eqn:S.
  - apply sorted_nil_inv in S. subst l. injection H as <- _.
    exists [], []. repeat split; intros y [].
  - destruct (IH y t eq_refl) as (pre & post & E & Hpre & Hpost).
    cbn [insert] in H. unfold before in H.
    destruct (Nat.ltb_spec (key a) (key y)) as [L|L]; injection H as <- _.
    + exists (a :: pre), post. rewrite E. split; [reflexivity|]. split; [|exact Hpost].
      intros z [<-|Hz]; [exact L|now apply Hpre].
    + exists [], l. split; [reflexivity|]. split; [intros z []|].
      intros z Hz. rewrite E in Hz. apply in_app_or in Hz as [Hz|[<-|Hz]].
      * apply Hpre in Hz. lia.
      * exact L.
      * apply Hpost in Hz. lia.
Qed.

Lemma filter_split (f : A -> bool) (l : list A) :
  forall a x b, filter f l = (a ++ x :: b)%list ->
  exists l1 l2, l = (l1 ++ x :: l2)%list /\ filter f l1 = a /\ filter f l2 = b /\ f x = true.
Proof.
  induction l as [|y l IH]; intros a x b H.
  - destruct a; discriminate.
  - simpl in H. destruct (f y) eqn:F.
    + destruct a as [|a0 a].
      * injection H as -> H. exists [], l. auto.
      * injection H as -> H. destruct (IH a x b H) as (l1 & l2 & -> & <- & <- & Fx).
        exists (a0 :: l1), l2. simpl. rewrite F. auto.
    + destruct (IH a x b H) as (l1 & l2 & -> & <- & <- & Fx).
      exists (y :: l1), l2. simpl. rewrite F. auto.
Qed.
End SortedFacts.

(** * [__calculate_cost] *)

Section CostFacts.

Lemma cost_of_spec_cost (pt ct : Z) (pp cp : float) :
  cost_of pt ct (pp, cp) = spec_cost pt ct pp cp.
Proof.
  unfold cost_of, spec_cost, bind.
  destruct (int_true_div pt 1000); [|reflexivity].
  destruct (int_true_div ct 1000); reflexivity.
Qed.

Lemma calculate_cost_over_prices (model : string) (pt st : Z) :
  __calculate_cost model pt st = calculate_cost_over prices model pt st.
Proof. reflexivity. Qed.

(** The three ways through [__calculate_cost]: an exact key; the earliest
    of the longest keys contained in the model name; no key at all. *)
Lemma calculate_cost_over_cases (table : dict (float * float))
    (model : string) (pt st : Z) :
  (dict_contains model table = true /\
   exists price, In (model, price) table /\
                 calculate_cost_over table model pt st = cost_of pt st price)
  \/
  (dict_contains model table = false /\
   exists pre k post price,
     keys table = (pre ++ k :: post)%list /\
     contains k model = true /\
     (forall k', In k' pre -> contains k' model = true ->
                 String.length k' < String.length k) /\
     (forall k', In k' post -> contains k' model = true ->
                 String.length k' <= String.length k) /\
     In (k, price) table /\
     dict_get k table = Ok price /\
     calculate_cost_over table model pt st = cost_of pt st price)
  \/
  (dict_contains model table = false /\
   filter (fun m => contains m model) (keys table) = [] /\
   calculate_cost_over table model pt st = Ok (PyInt 0)).
Proof.
  unfold calculate_cost_over. destruct (dict_contains model table) eqn:D.
  - left. split; [reflexivity|]. apply dict_contains_In in D.
    destruct (dict_get_In _ _ D) as (price & G & I).
    exists price. rewrite G. auto.
  - right.
    destruct (filter (fun m => contains m model) (keys table)) as [|m0 ms] eqn:MM.
    + right. auto.
    + left. split; [reflexivity|].
      destruct (sorted String.length true (m0 :: ms)) as [|k r] eqn:S.
      { apply sorted_nil_inv in S. discriminate. }
      destruct (sorted_head _ _ _ _ S) as (pre0 & post0 & E & Hpre & Hpost).
      rewrite E in MM.
      destruct (filter_split _ _ _ _ _ MM) as (pre & post & K & <- & <- & C).
      assert (I : In k (keys table)) by (rewrite K; apply in_elt).
      destruct (dict_get_In _ _ I) as (price & G & P).
      exists pre, k, post, price. cbn [item0 bind]. rewrite G. cbn [bind].
      repeat split; auto.
      * intros k' Hk' Ck'. apply Hpre. apply filter_In. auto.
      * intros k' Hk' Ck'. apply Hpost. apply filter_In. auto.
Qed.

Lemma calculate_cost_cases (model : string) (pt st : Z) :
  (dict_contains model prices = true /\
   exists price, In (model, price) prices /\
                 __calculate_cost model pt st = cost_of pt st price)
  \/
  (dict_contains model prices = false /\
   exists pre k post price,
     keys prices = (pre ++ k :: post)%list /\
     contains k model = true /\
     (forall k', In k' pre -> contains k' model = true ->
                 String.length k' < String.length k) /\
     (forall k', In k' post -> contains k' model = true ->
                 String.length k' <= String.length k) /\
     In (k, price) prices /\
     dict_get k prices = Ok price /\
     __calculate_cost model pt st = cost_of pt st price)
  \/
  (dict_contains model prices = false /\
   matching_models model = [] /\
   __calculate_cost model pt st = Ok (PyInt 0)).
Proof.
  rewrite calculate_cost_over_prices.
  exact (calculate_cost_over_cases prices model pt st).
Qed.

Lemma prices_keys_distinct : NoDup (keys prices).
Proof.
  assert (D : forall l : list string,
             (fix distinct (l : list string) : bool :=
                match l with
                | [] => true
                | x :: l' => negb (existsb (String.eqb x) l') && distinct l'
                end) l = true -> NoDup l).
  { induction l as [|x l IH]; intros H; [constructor|].
    apply andb_true_iff in H as [H1 H2]. constructor; [|now apply IH].
    intros I. apply negb_true_iff in H1.
    assert (existsb (String.eqb x) l = true); [|congruence].
    apply existsb_exists. exists x. split; [exact I|apply String.eqb_refl]. }
  apply D. vm_compute. reflexivity.
Qed.

(** A key has one price pair in the table. *)
Lemma prices_functional (k : string) (p1 p2 : float * float) :
  In (k, p1) prices -> In (k, p2) prices -> p1 = p2.
Proof.
  pose proof prices_keys_distinct as N. unfold keys in N. revert N.
  generalize prices. intros d. induction d as [|[k' v'] d IH]; intros N I1 I2.
  - contradiction.
  - simpl in N. inversion N as [|? ? Hn Hd]; subst.
    destruct I1 as [I1|I1], I2 as [I2|I2].
    + congruence.
    + injection I1 as -> ->. exfalso. apply Hn.
      change k with (fst (k, p2)). now apply in_map.
    + injection I2 as -> ->. exfalso. apply Hn.
      change k with (fst (k, p1)). now apply in_map.
    + now apply IH.
Qed.

End CostFacts.

(** C1: [__calculate_cost] follows the reference definition: the price pair
    of an exact key; otherwise that of a longest table key contained in the
    model name; otherwise 0; and for a selected pair the unrounded cost
    formula. *)
Theorem calculate_cost_refines_spec (modelName : string) (promptTokens completionTokens : Z) :
  estimateCost_spec modelName promptTokens completionTokens
    (__calculate_cost modelName promptTokens completionTokens).
Proof.
  unfold estimateCost_spec.
  destruct (calculate_cost_cases modelName promptTokens completionTokens)
    as [(D & [pp cp] & I & E)
       |[(D & pre & k & post & [pp cp] & K & C & Hpre & Hpost & I & _ & E)
        |(D & MM & E)]].
  - left. exists pp, cp. rewrite E, cost_of_spec_cost. auto.
  - right. left. apply dict_contains_not_In in D. split; [exact D|].
    exists k, pp, cp. rewrite E, cost_of_spec_cost.
    assert (Ik : In k (keys prices)) by (rewrite K; apply in_elt).
    repeat split; auto.
    intros key' [Ikey Ckey]. rewrite K in Ikey.
    apply in_app_or in Ikey as [H|[<-|H]].
    + apply Nat.lt_le_incl. now apply Hpre.
    + apply Nat.le_refl.
    + now apply Hpost.
  - right. right. apply dict_contains_not_In in D. repeat split; auto.
    intros key [Ikey Ckey].
    assert (F : In key (matching_models modelName))
      by (apply filter_In; auto).
    rewrite MM in F. exact F.
Qed.

(** C3: when no table key is a substring of the model name,
    [__calculate_cost] returns the integer 0 and raises nothing, whatever
    the token counts are. *)
Theorem calculate_cost_unknown_model (model : string) (prompt_tokens sampled_tokens : Z) :
  (forall key, In key (keys prices) -> contains key model = false) ->
  __calculate_cost model prompt_tokens sampled_tokens = Ok (PyInt 0).
Proof.
  intros H.
  destruct (calculate_cost_cases model prompt_tokens sampled_tokens)
    as [(D & _)|[(_ & pre & k & post & _ & K & C & _)|(_ & _ & E)]].
  - apply dict_contains_In in D. pose proof (H model D) as F.
    rewrite contains_refl in F. discriminate.
  - rewrite H in C; [discriminate|]. rewrite K. apply in_elt.
  - exact E.
Qed.

Lemma calculate_cost_unknown_model_witness :
  __calculate_cost "unknown-model-xyz" (-500) 0 = Ok (PyInt 0).
Proof.
  apply (calculate_cost_unknown_model "unknown-model-xyz" (-500) 0).
  intros key I.
  assert (F : forallb (fun k => negb (contains k "unknown-model-xyz")) (keys prices) = true)
    by (vm_compute; reflexivity).
  rewrite forallb_forall in F. apply negb_true_iff. now apply F.
Defined.

(** C10: when the model name is not a table key and contains some, the key
    [__calculate_cost] prices with is the longest contained one that comes
    first in the table's order: every contained key before it is strictly
    shorter, every contained key after it is not longer. *)
Theorem calculate_cost_tie_break (model : string) (prompt_tokens sampled_tokens : Z) :
  ~ In model (keys prices) ->
  (exists key, In key (keys prices) /\ contains key model = true) ->
  exists pre k post price,
    keys prices = (pre ++ k :: post)%list /\
    contains k model = true /\
    (forall k', In k' pre -> contains k' model = true ->
                String.length k' < String.length k) /\
    (forall k', In k' post -> contains k' model = true ->
                String.length k' <= String.length k) /\
    dict_get k prices = Ok price /\
    __calculate_cost model prompt_tokens sampled_tokens
    = cost_of prompt_tokens sampled_tokens price /\
    (forall model' prompt_tokens' sampled_tokens',
        model' = model -> prompt_tokens' = prompt_tokens ->
        sampled_tokens' = sampled_tokens ->
        __calculate_cost model' prompt_tokens' sampled_tokens'
        = cost_of prompt_tokens sampled_tokens price).
Proof.
  intros N (key & Ikey & Ckey).
  destruct (calculate_cost_cases model prompt_tokens sampled_tokens)
    as [(D & _)|[(_ & pre & k & post & price & K & C & Hpre & Hpost & _ & G & E)
                |(_ & MM & _)]].
  - apply dict_contains_In in D. contradiction.
  - exists pre, k, post, price. repeat split; auto.
    intros ? ? ? -> -> ->. exact E.
  - assert (F : In key (matching_models model)) by (apply filter_In; auto).
    rewrite MM in F. contradiction.
Qed.

Lemma calculate_cost_tie_break_witness :
  exists pre k post price,
    keys prices = (pre ++ k :: post)%list /\
    contains k "gpt-4o1-pro" = true /\
    (forall k', In k' pre -> contains k' "gpt-4o1-pro" = true ->
                String.length k' < String.length k) /\
    (forall k', In k' post -> contains k' "gpt-4o1-pro" = true ->
                String.length k' <= String.length k) /\
    dict_get k prices = Ok price /\
    __calculate_cost "gpt-4o1-pro" 1000 0 = cost_of 1000 0 price /\
    (forall model' prompt_tokens' sampled_tokens',
        model' = "gpt-4o1-pro" -> prompt_tokens' = 1000%Z -> sampled_tokens' = 0%Z ->
        __calculate_cost model' prompt_tokens' sampled_tokens' = cost_of 1000 0 price).
Proof.
  apply (calculate_cost_tie_break "gpt-4o1-pro" 1000 0).
  - apply dict_contains_not_In. vm_compute. reflexivity.
  - exists "gpt-4o". split; [|reflexivity].
    apply dict_contains_In. vm_compute. reflexivity.
Defined.

(** The tie of the claim: ["gpt-4o"] and ["o1-pro"] are the two longest
    keys contained in ["gpt-4o1-pro"]; the sort keeps ["gpt-4o"] first and
    its prices are used. *)
Example tie_gpt4o_before_o1pro :
  matching_models "gpt-4o1-pro" = ["gpt-4o"; "o1"; "o1-pro"; "gpt-4"] /\
  sorted String.length true (matching_models "gpt-4o1-pro")
  = ["gpt-4o"; "o1-pro"; "gpt-4"; "o1"] /\
  __calculate_cost "gpt-4o1-pro" 1000 0 = cost_of 1000 0 (dec 25 4, dec 1 2) /\
  __calculate_cost "gpt-4o1-pro" 1000 0 <> cost_of 1000 0 (dec 15 2, dec 6 1).
Proof. repeat split. vm_compute. discriminate. Qed.

(** * Signs in the binary64 arithmetic *)

Section SignFacts.

Variables prec emax : Z.

Lemma shr_1_nonneg (mrs : shr_record) :
  (0 <= shr_m mrs)%Z -> (0 <= shr_m (shr_1 mrs))%Z.
Proof.
  destruct mrs as [m r s]. simpl. intros H.
  destruct m as [|p|p]; [simpl; lia| |lia].
  destruct p; simpl; lia.
Qed.

Lemma iter_shr_1_nonneg (p : positive) :
  forall mrs, (0 <= shr_m mrs)%Z -> (0 <= shr_m (iter_pos shr_1 p mrs))%Z.
Proof.
  induction p as [p IH|p IH|]; intros mrs H; simpl.
  - apply IH, IH. now apply shr_1_nonneg.
  - now apply IH, IH.
  - now apply shr_1_nonneg.
Qed.

Lemma shr_fexp_nonneg (m e : Z) (l : location) :
  (0 <= m)%Z -> (0 <= shr_m (fst (shr_fexp prec emax m e l)))%Z.
Proof.
  intros H. unfold shr_fexp, shr.
  assert (R : (0 <= shr_m (shr_record_of_loc m l))%Z)
    by (destruct l as [|[]]; exact H).
  destruct (fexp prec emax (Zdigits2 m + e) - e)%Z; simpl; auto.
  now apply iter_shr_1_nonneg.
Qed.

Lemma round_nearest_even_nonneg (m : Z) (l : location) :
  (0 <= m)%Z -> (0 <= round_nearest_even m l)%Z.
Proof.
  intros H. destruct l as [|[]]; simpl; try lia.
  destruct (Z.even m); lia.
Qed.

(** Rounding a non-negative significand gives a zero, a finite number or
    an infinity of the sign asked for, never a NaN. *)
Lemma binary_round_aux_sign (s : bool) (m e : Z) (l : location) :
  (0 <= m)%Z -> has_sign s (binary_round_aux prec emax s m e l).
Proof.
  intros H. unfold binary_round_aux.
  pose proof (shr_fexp_nonneg m e l H) as H1.
  destruct (shr_fexp prec emax m e l) as [mrs' e']. simpl in H1.
  pose proof (shr_fexp_nonneg _ e' loc_Exact
                (round_nearest_even_nonneg _ (loc_of_shr_record mrs') H1)) as H2.
  destruct (shr_fexp prec emax _ e' loc_Exact) as [mrs'' e'']. simpl in H2.
  destruct (shr_m mrs'') as [|p|p]; simpl; [reflexivity| |lia].
  destruct (e'' <=? emax - prec)%Z; reflexivity.
Qed.

Lemma binary_round_sign (s : bool) (m : positive) (e : Z) :
  has_sign s (binary_round prec emax s m e).
Proof.
  unfold binary_round. destruct (shl_align m e _) as [mz ez].
  now apply binary_round_aux_sign.
Qed.

Lemma div_core_nonneg (m1 : positive) (e1 : Z) (m2 : positive) (e2 : Z) :
  (0 <= fst (fst (SFdiv_core_binary prec emax (Zpos m1) e1 (Zpos m2) e2)))%Z.
Proof.
  unfold SFdiv_core_binary.
  set (sh := (e1 - e2 - _)%Z).
  set (m' := match sh with Zpos _ => Z.shiftl (Zpos m1) sh | Z0 => Zpos m1 | Zneg _ => 0%Z end).
  assert (Hm : (0 <= m')%Z).
  { unfold m'. destruct sh; try lia. apply Z.shiftl_nonneg. lia. }
  pose proof (Z_div_mod m' (Zpos m2) ltac:(lia)) as D.
  destruct (Z.div_eucl m' (Zpos m2)) as [q r]. simpl.
  destruct D as [D R]. nia.
Qed.

Lemma SFdiv_sign (s : bool) (x y : spec_float) (my : positive) (ey : Z) :
  has_sign s x -> y = S754_finite false my ey ->
  has_sign s (SFdiv prec emax x y).
Proof.
  intros Hx ->. destruct x as [sx|sx| |sx mx ex]; simpl in *; try contradiction;
    subst; try now destruct s.
  pose proof (div_core_nonneg mx ex my ey) as H.
  destruct (SFdiv_core_binary prec emax (Zpos mx) ex (Zpos my) ey) as [[mz ez] lz].
  simpl in H. rewrite xorb_false_r. now apply binary_round_aux_sign.
Qed.

Lemma SFmul_sign (s : bool) (x y : spec_float) :
  has_sign s x -> positive_price y = true ->
  has_sign s (SFmul prec emax x y).
Proof.
  intros Hx Hy. destruct y as [| | |[|] my ey]; try discriminate.
  destruct x as [sx|sx| |sx mx ex]; simpl in *; try contradiction;
    subst; try now destruct s.
  rewrite xorb_false_r. apply binary_round_aux_sign. lia.
Qed.

Lemma SFadd_nonneg (x y : spec_float) :
  has_sign false x -> has_sign false y ->
  has_sign false (SFadd prec emax x y).
Proof.
  intros Hx Hy.
  destruct x as [sx|sx| |sx mx ex]; simpl in Hx; try contradiction; subst;
    destruct y as [sy|sy| |sy my ey]; simpl in Hy; try contradiction; subst;
    try reflexivity.
  unfold SFadd, cond_Zopp, binary_normalize.
  destruct (shl_align mx ex _) as [mx' ex'], (shl_align my ey _) as [my' ey'].
  simpl. apply binary_round_sign.
Qed.

End SignFacts.

Section NonNegative.

Lemma ge0_of_sign (x : float) : has_sign false x -> ge0 x = true.
Proof.
  destruct x as [s|s| |s m e]; simpl; intros H; try contradiction; subst; reflexivity.
Qed.

(** [tokens / 1000] for a non-negative count: a float that is not
    negative, or the overflow error. *)
Lemma int_true_div_nonneg (tokens : Z) :
  (0 <= tokens)%Z ->
  match int_true_div tokens 1000 with
  | Ok q => has_sign false q /\ q = SFdiv Float64.prec Float64.emax (exact tokens) (exact 1000)
  | Raise e => e = OverflowError overflow_msg
  end.
Proof.
  intros H. unfold int_true_div. change (1000 =? 0)%Z with false. cbn iota.
  assert (S : has_sign false (exact tokens))
    by (destruct tokens; simpl; [reflexivity|reflexivity|lia]).
  pose proof (SFdiv_sign Float64.prec Float64.emax false (exact tokens)
                (exact 1000) 1000 0 S eq_refl) as Q.
  destruct (SFdiv Float64.prec Float64.emax (exact tokens) (exact 1000));
    simpl in *; auto.
Qed.

Lemma cost_of_nonneg (pt st : Z) (pp sp : float) :
  (0 <= pt)%Z -> (0 <= st)%Z ->
  positive_price pp = true -> positive_price sp = true ->
  match cost_of pt st (pp, sp) with
  | Ok v => number_ge0 v = true
  | Raise e => e = OverflowError overflow_msg
  end.
Proof.
  intros Hp Hs Ppp Psp. unfold cost_of, bind.
  pose proof (int_true_div_nonneg pt Hp) as Dp.
  destruct (int_true_div pt 1000) as [p|e]; [|exact Dp].
  pose proof (int_true_div_nonneg st Hs) as Ds.
  destruct (int_true_div st 1000) as [s|e]; [|exact Ds].
  simpl. apply ge0_of_sign. unfold fadd, fmul.
  apply SFadd_nonneg; apply SFmul_sign; tauto.
Qed.

Lemma prices_positive (k : string) (pp sp : float) :
  In (k, (pp, sp)) prices ->
  positive_price pp = true /\ positive_price sp = true.
Proof.
  intros I.
  assert (F : forallb (fun kv => positive_price (fst (snd kv)) &&
                                 positive_price (snd (snd kv))) prices = true)
    by (vm_compute; reflexivity).
  rewrite forallb_forall in F. apply F in I. simpl in I.
  now apply andb_true_iff in I.
Qed.

End NonNegative.

(** * No overflow for token counts below [2^1000] *)

Section Overflow.

Local Open Scope Z_scope.

Lemma digits2_pos_size (p : positive) : digits2_pos p = Pos.size p.
Proof. induction p as [p IH|p IH|]; simpl; now rewrite ?IH. Qed.

Lemma Zdigits2_log2 (a : Z) : 0 < a -> Zdigits2 a = Z.log2 a + 1.
Proof.
  destruct a as [|p|p]; try lia. intros _.
  destruct p as [p|p|]; simpl; rewrite ?digits2_pos_size; lia.
Qed.

Lemma Zdigits2_nonneg (a : Z) : 0 <= Zdigits2 a.
Proof. destruct a; simpl; lia. Qed.

Lemma Zdigits2_mono (a b : Z) : 0 <= a <= b -> Zdigits2 a <= Zdigits2 b.
Proof.
  intros [Ha Hab]. destruct (Z.eq_dec a 0) as [->|Na].
  - apply Zdigits2_nonneg.
  - rewrite !Zdigits2_log2 by lia. pose proof (Z.log2_le_mono a b Hab). lia.
Qed.

Lemma Zdigits2_succ (a : Z) : 0 <= a -> Zdigits2 (a + 1) <= Zdigits2 a + 1.
Proof.
  intros Ha. destruct (Z.eq_dec a 0) as [->|Na]; [simpl; lia|].
  rewrite !Zdigits2_log2 by lia. pose proof (Z.log2_succ_le a).
  unfold Z.succ in *. lia.
Qed.

Lemma Zdigits2_lt_pow2 (a k : Z) : 0 <= a < 2 ^ k -> 0 <= k -> Zdigits2 a <= k.
Proof.
  intros [Ha Hk] K. destruct (Z.eq_dec a 0) as [->|Na]; [simpl; lia|].
  rewrite Zdigits2_log2 by lia.
  assert (Z.log2 a < k) by (apply Z.log2_lt_pow2; lia). lia.
Qed.

Lemma Zdigits2_shiftr (m n : Z) :
  0 <= m -> 0 <= n -> Zdigits2 (Z.shiftr m n) <= Z.max 0 (Zdigits2 m - n).
Proof.
  intros Hm Hn. destruct (Z.eq_dec m 0) as [->|Nm].
  - rewrite Z.shiftr_0_l. simpl. lia.
  - assert (S : 0 <= Z.shiftr m n) by (apply Z.shiftr_nonneg; lia).
    destruct (Z.eq_dec (Z.shiftr m n) 0) as [E|E]; [rewrite E; simpl; lia|].
    rewrite !Zdigits2_log2 by lia. rewrite Z.log2_shiftr by lia.
    destruct (Z_lt_le_dec (Z.log2 m) n) as [L|L]; [|lia].
    rewrite Z.shiftr_eq_0 in E; lia.
Qed.

Lemma Zdigits2_shiftl (m n : Z) :
  0 < m -> 0 <= n -> Zdigits2 (Z.shiftl m n) = Zdigits2 m + n.
Proof.
  intros Hm Hn.
  assert (0 < Z.shiftl m n) by (rewrite Z.shiftl_mul_pow2 by lia; nia).
  rewrite !Zdigits2_log2 by lia. rewrite Z.log2_shiftl by lia. lia.
Qed.

Lemma shr_1_shiftr (mrs : shr_record) :
  0 <= shr_m mrs -> shr_m (shr_1 mrs) = Z.shiftr (shr_m mrs) 1.
Proof.
  destruct mrs as [m r s]. simpl. intros H.
  destruct m as [|p|p]; [reflexivity| |lia]. now destruct p.
Qed.

Lemma iter_shr_1_shiftr (p : positive) :
  forall mrs, 0 <= shr_m mrs ->
              shr_m (iter_pos shr_1 p mrs) = Z.shiftr (shr_m mrs) (Zpos p).
Proof.
  induction p as [p IH|p IH|]; intros mrs H; simpl iter_pos.
  - rewrite IH by now apply iter_shr_1_nonneg, shr_1_nonneg.
    rewrite IH by now apply shr_1_nonneg.
    rewrite shr_1_shiftr by exact H.
    rewrite !Z.shiftr_shiftr by lia. f_equal. lia.
  - rewrite IH by now apply iter_shr_1_nonneg.
    rewrite IH by exact H.
    rewrite Z.shiftr_shiftr by lia. f_equal. lia.
  - now apply shr_1_shiftr.
Qed.

Variables prec emax : Z.

(** What [shr_fexp] does to the exponent and to the size of the
    significand. *)
Lemma shr_fexp_bounds (m e : Z) (l : location) :
  0 <= m ->
  snd (shr_fexp prec emax m e l) = Z.max e (fexp prec emax (Zdigits2 m + e)) /\
  Zdigits2 (shr_m (fst (shr_fexp prec emax m e l))) + snd (shr_fexp prec emax m e l)
  <= Z.max (snd (shr_fexp prec emax m e l)) (Zdigits2 m + e).
Proof.
  intros H. unfold shr_fexp, shr.
  assert (R : shr_m (shr_record_of_loc m l) = m) by (destruct l as [|[]]; reflexivity).
  destruct (fexp prec emax (Zdigits2 m + e) - e) as [|n|n] eqn:N; simpl.
  - rewrite R. lia.
  - rewrite iter_shr_1_shiftr by (rewrite R; exact H). rewrite R.
    pose proof (Zdigits2_shiftr m (Zpos n) H ltac:(lia)). lia.
  - rewrite R. lia.
Qed.

Lemma round_nearest_even_cases (m : Z) (l : location) :
  round_nearest_even m l = m \/ round_nearest_even m l = m + 1.
Proof. destruct l as [|[]]; simpl; auto. destruct (Z.even m); auto. Qed.

Lemma div_core_bounds (m1 : positive) (e1 : Z) (m2 : positive) (e2 : Z) :
  let '(mz, ez, _) := SFdiv_core_binary prec emax (Zpos m1) e1 (Zpos m2) e2 in
  0 <= mz /\ ez <= e1 - e2 /\ Zdigits2 mz + ez <= Zdigits2 (Zpos m1) + e1 - e2.
Proof.
  pose proof (div_core_nonneg prec emax m1 e1 m2 e2) as Q.
  unfold SFdiv_core_binary in *.
  set (ez := Z.min _ (e1 - e2)) in *.
  set (m' := match e1 - e2 - ez with
             | Zpos _ => Z.shiftl (Zpos m1) (e1 - e2 - ez)
             | Z0 => Zpos m1
             | Zneg _ => 0
             end) in *.
  assert (Hez : ez <= e1 - e2) by (unfold ez; lia).
  assert (Hm : 0 <= m' /\ Zdigits2 m' <= Zdigits2 (Zpos m1) + (e1 - e2 - ez)).
  { unfold m'. destruct (e1 - e2 - ez) as [|n|n] eqn:S; try lia.
    rewrite Zdigits2_shiftl by lia. split; [apply Z.shiftl_nonneg|]; lia. }
  pose proof (Z_div_mod m' (Zpos m2) ltac:(lia)) as D.
  destruct (Z.div_eucl m' (Zpos m2)) as [q r]. simpl in Q.
  split; [exact Q|]. split; [exact Hez|].
  assert (q <= m') by (destruct D; nia).
  pose proof (Zdigits2_mono q m' ltac:(lia)). lia.
Qed.

End Overflow.

Section Returns.

Local Open Scope Z_scope.

(** Rounding to binary64 gives no infinity while the value stays below
    [2^1022]. *)
Lemma binary_round_aux_finite (s : bool) (m e : Z) (l : location) :
  0 <= m -> e <= 970 -> Zdigits2 m + e <= 1022 ->
  forall s', binary_round_aux Float64.prec Float64.emax s m e l <> S754_infinity s'.
Proof.
  intros Hm He Hd s'. unfold binary_round_aux.
  pose proof (shr_fexp_bounds Float64.prec Float64.emax m e l Hm) as [E1 D1].
  pose proof (shr_fexp_nonneg Float64.prec Float64.emax m e l Hm) as N1.
  destruct (shr_fexp Float64.prec Float64.emax m e l) as [mrs' e']. simpl in E1, D1, N1.
  set (m1 := round_nearest_even (shr_m mrs') (loc_of_shr_record mrs')).
  assert (Hm1 : 0 <= m1 /\ Zdigits2 m1 <= Zdigits2 (shr_m mrs') + 1).
  { split; [now apply round_nearest_even_nonneg|].
    destruct (round_nearest_even_cases (shr_m mrs') (loc_of_shr_record mrs')) as [R|R];
      unfold m1; rewrite R; [lia|now apply Zdigits2_succ]. }
  pose proof (shr_fexp_bounds Float64.prec Float64.emax m1 e' loc_Exact (proj1 Hm1))
    as [E2 _].
  destruct (shr_fexp Float64.prec Float64.emax m1 e' loc_Exact) as [mrs'' e''].
  simpl in E2.
  assert (B : e'' <= 971).
  { unfold fexp, emin, Float64.prec, Float64.emax in *. lia. }
  destruct (shr_m mrs''); try discriminate.
  destruct (Z.leb_spec e'' (Float64.emax - Float64.prec)) as [L|L]; [discriminate|].
  unfold Float64.emax, Float64.prec in L. lia.
Qed.

(** [tokens / 1000] does not raise while [|tokens| < 2^1000]. *)
Lemma int_true_div_returns (tokens : Z) :
  Z.abs tokens < 2 ^ 1000 -> exists q, int_true_div tokens 1000 = Ok q.
Proof.
  intros H. unfold int_true_div. change (1000 =? 0) with false. cbn iota.
  assert (F : forall s', SFdiv Float64.prec Float64.emax (exact tokens) (exact 1000)
                         <> S754_infinity s').
  { destruct tokens as [|p|p]; [discriminate| |];
      unfold exact, SFdiv;
      pose proof (div_core_bounds Float64.prec Float64.emax p 0 1000 0) as B;
      destruct (SFdiv_core_binary Float64.prec Float64.emax (Zpos p) 0 (Zpos 1000) 0)
        as [[mz ez] lz];
      destruct B as (B1 & B2 & B3);
      assert (Zdigits2 (Zpos p) <= 1000) by (apply Zdigits2_lt_pow2; lia);
      apply binary_round_aux_finite; lia. }
  destruct (SFdiv Float64.prec Float64.emax (exact tokens) (exact 1000)) as [s|s| |s m e];
    eauto.
  exfalso. now apply (F s).
Qed.

Lemma cost_of_returns (pt st : Z) (price : float * float) :
  Z.abs pt < 2 ^ 1000 -> Z.abs st < 2 ^ 1000 ->
  exists v, cost_of pt st price = Ok v.
Proof.
  intros Hp Hs. unfold cost_of, bind. destruct price as [pp sp].
  destruct (int_true_div_returns pt Hp) as (p & ->).
  destruct (int_true_div_returns st Hs) as (s & ->). eauto.
Qed.

(** [__calculate_cost] raises nothing while both counts are below [2^1000]
    in absolute value. *)
Lemma calculate_cost_returns (model : string) (pt st : Z) :
  Z.abs pt < 2 ^ 1000 -> Z.abs st < 2 ^ 1000 ->
  exists v, __calculate_cost model pt st = Ok v.
Proof.
  intros Hp Hs.
  destruct (calculate_cost_cases model pt st)
    as [(_ & price & _ & E)
       |[(_ & pre & k & post & price & _ & _ & _ & _ & _ & _ & E)
        |(_ & _ & E)]]; rewrite E; eauto using cost_of_returns.
Qed.

End Returns.

(** C4, as amended: for non-negative token counts the value
    [__calculate_cost] returns is not negative; the only exception it can
    raise is the [OverflowError] of [int / int], and it raises none while
    both counts are below [2^1000]. *)
Theorem calculate_cost_nonneg (model : string) (prompt_tokens sampled_tokens : Z) :
  (0 <= prompt_tokens)%Z -> (0 <= sampled_tokens)%Z ->
  match __calculate_cost model prompt_tokens sampled_tokens with
  | Ok v => number_ge0 v = true
  | Raise e => e = OverflowError overflow_msg
  end /\
  ((prompt_tokens < 2 ^ 1000)%Z -> (sampled_tokens < 2 ^ 1000)%Z ->
   exists v, __calculate_cost model prompt_tokens sampled_tokens = Ok v /\
             number_ge0 v = true).
Proof.
  intros Hp Hs.
  assert (G : match __calculate_cost model prompt_tokens sampled_tokens with
              | Ok v => number_ge0 v = true
              | Raise e => e = OverflowError overflow_msg
              end).
  { destruct (calculate_cost_cases model prompt_tokens sampled_tokens)
      as [(_ & [pp sp] & I & E)
         |[(_ & pre & k & post & [pp sp] & _ & _ & _ & _ & I & _ & E)
          |(_ & _ & E)]]; rewrite E.
    - destruct (prices_positive _ _ _ I). now apply cost_of_nonneg.
    - destruct (prices_positive _ _ _ I). now apply cost_of_nonneg.
    - reflexivity. }
  split; [exact G|]. intros Bp Bs.
  destruct (calculate_cost_returns model prompt_tokens sampled_tokens) as (v & E);
    try (rewrite Z.abs_eq; assumption).
  exists v. rewrite E in G. auto.
Qed.

Lemma calculate_cost_nonneg_witness :
  exists v, __calculate_cost "gpt-4o" 1000 1000 = Ok v /\ number_ge0 v = true.
Proof.
  apply (calculate_cost_nonneg "gpt-4o" 1000 1000); lia.
Defined.

(** C4, as stated, fails: a negative token count is priced like any other
    and gives a negative cost. *)
Lemma calculate_cost_nonneg_counterexample :
  __calculate_cost "gpt-4o" (-1000) 0
  = Ok (PyFloat (S754_finite true 5764607523034235 (-61))) /\
  number_ge0 (PyFloat (S754_finite true 5764607523034235 (-61))) = false.
Proof. split; vm_compute; reflexivity. Qed.

(** * Further properties of [__check] *)

Section ReplaceAbsent.

Variables sub old new : string.

Hypothesis sub_nonempty : sub <> "".
Hypothesis sub_borders : no_border sub new = true.

(** A suffix of [sub] that starts the output of the scan for [old] starts
    its input too. *)
Lemma scan_prefix_back_other (w : string) :
  forall u s, sub = u ++ w ->
              prefix w (replace_from old new 0 s) = true -> prefix w s = true.
Proof.
  induction w as [|a w IH]; intros u s E H; [apply prefix_nil_l|].
  destruct s as [|c s]; [discriminate|].
  rewrite scan_step in H. destruct (prefix old (String c s)) eqn:M.
  - rewrite (old_suffix_clash sub new sub_borders u (String a w)) in H;
      [discriminate | exact E | discriminate].
  - rewrite prefix_cons in *. apply andb_true_iff in H as [-> H].
    apply (IH (u ++ String a "") s); [|exact H].
    rewrite append_snoc. exact E.
Qed.

(** Replacing [old] by [new] creates no occurrence of a string [sub] that
    cannot overlap [new]. *)
Lemma scan_keeps_absent (s : string) :
  forall k, contains sub s = false ->
            contains sub (replace_from old new k s) = false.
Proof.
  induction s as [|c s IH]; intros k H.
  - simpl. destruct sub; [contradiction|reflexivity].
  - rewrite contains_cons in H. apply orb_false_iff in H as [P C].
    destruct k as [|k]; [|now apply IH].
    rewrite scan_step. destruct (prefix old (String c s)) eqn:M.
    + apply (new_suffix_free sub new sub_borders new ""); [reflexivity|now apply IH].
    + rewrite contains_cons. apply orb_false_iff. split; [|now apply IH].
      destruct (prefix sub (String c (replace_from old new 0 s))) eqn:Q; [|reflexivity].
      assert (R : replace_from old new 0 (String c s)
                  = String c (replace_from old new 0 s))
        by (rewrite scan_step, M; reflexivity).
      rewrite <- R in Q.
      apply (scan_prefix_back_other sub "" (String c s) eq_refl) in Q. congruence.
Qed.

Lemma replace_keeps_absent (s : string) :
  old <> "" -> contains sub s = false -> contains sub (replace old new s) = false.
Proof.
  intros Hold H. pose proof (scan_keeps_absent s 0 H) as K. unfold replace.
  destruct old; [contradiction|exact K].
Qed.

End ReplaceAbsent.

Section InfluxFacts.

(** After the prometheus rewrite none of the three replaced markers is
    left in the URL. *)
Lemma to_influx_markers (m : string) :
  contains "prometheus" m = true ->
  contains "prometheus" (to_influx m) = false /\
  contains "api/prom" (to_influx m) = false /\
  contains "-us-central1" (to_influx m) = false.
Proof.
  intros P. unfold to_influx. rewrite P.
  set (m1 := replace "prometheus" "influx" m).
  set (m2 := replace "api/prom" "api/v1/push/influx/write" m1).
  assert (P1 : contains "prometheus" m1 = false)
    by (apply replace_removes; [discriminate|reflexivity]).
  assert (P2 : contains "prometheus" m2 = false)
    by (apply replace_keeps_absent; [discriminate|reflexivity|discriminate|exact P1]).
  assert (A2 : contains "api/prom" m2 = false)
    by (apply replace_removes; [discriminate|reflexivity]).
  destruct (contains "-us-central1" m2) eqn:R; [|auto].
  repeat split.
  - apply replace_keeps_absent; [discriminate|reflexivity|discriminate|exact P2].
  - apply replace_keeps_absent; [discriminate|reflexivity|discriminate|exact A2].
  - apply region_marker_removed.
Qed.

Lemma check_lacking_marker (m l a b c : string) :
  contains "api/prom" m = false ->
  __check (Some m) (Some l) (Some a) (Some b) (Some c) = Raise (ValueError missing_msg) \/
  __check (Some m) (Some l) (Some a) (Some b) (Some c) = Raise (ValueError format_msg).
Proof.
  intros H. unfold __check, all, forallb.
  destruct (truthy (Some m)); [|now left].
  destruct (truthy (Some l)); [|now left].
  destruct (truthy (Some a)); [|now left].
  destruct (truthy (Some b)); [|now left].
  destruct (truthy (Some c)); [|now left].
  simpl. rewrite H. now right.
Qed.

End InfluxFacts.

(** X1: the missing-parameter guard comes first.  [__check] raises the
    "All parameters ... must be provided" error exactly when one of the five
    arguments is empty or absent, and the "Invalid metrics URL format" error
    exactly when all five are given and the metrics URL lacks ["api/prom"]. *)
Theorem check_error_precedence (mu lu mn ln tok : option string) :
  (__check mu lu mn ln tok = Raise (ValueError missing_msg) <->
   empty_or_absent mu \/ empty_or_absent lu \/ empty_or_absent mn \/
   empty_or_absent ln \/ empty_or_absent tok) /\
  (__check mu lu mn ln tok = Raise (ValueError format_msg) <->
   ~ empty_or_absent mu /\ ~ empty_or_absent lu /\ ~ empty_or_absent mn /\
   ~ empty_or_absent ln /\ ~ empty_or_absent tok /\ lacks_marker mu).
Proof.
  assert (T : forall x, truthy x = true -> ~ empty_or_absent x)
    by (intros x H E; apply truthy_false in E; congruence).
  unfold __check, all, forallb.
  destruct (truthy mu) eqn:E1; simpl.
  2:{ apply truthy_false in E1. split; split; try tauto; discriminate. }
  destruct (truthy lu) eqn:E2; simpl.
  2:{ apply truthy_false in E2. split; split; try tauto; discriminate. }
  destruct (truthy mn) eqn:E3; simpl.
  2:{ apply truthy_false in E3. split; split; try tauto; discriminate. }
  destruct (truthy ln) eqn:E4; simpl.
  2:{ apply truthy_false in E4. split; split; try tauto; discriminate. }
  destruct (truthy tok) eqn:E5; simpl.
  2:{ apply truthy_false in E5. split; split; try tauto; discriminate. }
  apply T in E2, E3, E4, E5. pose proof (T _ E1) as N1.
  apply truthy_true in E1 as (m & -> & _).
  destruct lu as [l|]; [|exfalso; apply E2; now left].
  unfold lacks_marker. destruct (contains "api/prom" m) eqn:P; simpl.
  - split; split; try discriminate; try tauto.
    intros (_ & _ & _ & _ & _ & L). specialize (L m eq_refl). congruence.
  - split; split; try discriminate; try tauto.
    intros _. repeat split; try assumption. intros u [= <-]. exact P.
Qed.

(** X2: on a valid input whose metrics URL contains ["prometheus"], the
    canonical metrics URL contains none of ["prometheus"], ["api/prom"] and
    ["-us-central1"]. *)
Theorem check_prometheus_markers_gone (m l a b c : string) :
  valid_config m l a b c ->
  contains "prometheus" m = true ->
  exists m' l',
    __check (Some m) (Some l) (Some a) (Some b) (Some c) = Ok (m', l') /\
    contains "prometheus" m' = false /\
    contains "api/prom" m' = false /\
    contains "-us-central1" m' = false.
Proof.
  intros V P. exists (strip_slash (to_influx m)), (strip_slash l).
  split; [now apply check_valid|].
  destruct (to_influx_markers m P) as (H1 & H2 & H3).
  repeat split; apply contains_strip_slash_false; auto; discriminate.
Qed.

Lemma check_prometheus_markers_gone_witness :
  exists m' l',
    __check (Some central_url) (Some loki_url) (Some "123") (Some "456") (Some "token")
    = Ok (m', l') /\
    contains "prometheus" m' = false /\
    contains "api/prom" m' = false /\
    contains "-us-central1" m' = false.
Proof.
  apply (check_prometheus_markers_gone central_url loki_url "123" "456" "token").
  - valid_config_tac.
  - reflexivity.
Defined.

(** X3: [__check] cannot be applied to its own output for a prometheus
    endpoint: on a valid input whose metrics URL contains ["prometheus"],
    the call on the returned URLs raises a [ValueError], whatever the
    credentials are. *)
Theorem check_reapply_prometheus_raises (m l a b c a' b' c' : string) :
  valid_config m l a b c ->
  contains "prometheus" m = true ->
  exists m' l',
    __check (Some m) (Some l) (Some a) (Some b) (Some c) = Ok (m', l') /\
    (__check (Some m') (Some l') (Some a') (Some b') (Some c')
     = Raise (ValueError missing_msg) \/
     __check (Some m') (Some l') (Some a') (Some b') (Some c')
     = Raise (ValueError format_msg)).
Proof.
  intros V P. exists (strip_slash (to_influx m)), (strip_slash l).
  split; [now apply check_valid|].
  apply check_lacking_marker.
  apply contains_strip_slash_false; [discriminate|].
  now apply to_influx_markers.
Qed.

Lemma check_reapply_prometheus_raises_witness :
  exists m' l',
    __check (Some central_url) (Some loki_url) (Some "123") (Some "456") (Some "token")
    = Ok (m', l') /\
    (__check (Some m') (Some l') (Some "123") (Some "456") (Some "token")
     = Raise (ValueError missing_msg) \/
     __check (Some m') (Some l') (Some "123") (Some "456") (Some "token")
     = Raise (ValueError format_msg)).
Proof.
  apply (check_reapply_prometheus_raises central_url loki_url "123" "456" "token").
  - valid_config_tac.
  - reflexivity.
Defined.

(** * Further properties of [__calculate_cost] *)

Section LongestMatch.

Lemma prefix_length (k s : string) :
  prefix k s = true -> String.length k <= String.length s.
Proof.
  revert s. induction k as [|a k IH]; intros s H; [simpl; lia|].
  destruct s as [|c s]; [discriminate|].
  rewrite prefix_cons in H. apply andb_true_iff in H as [_ H].
  apply IH in H. simpl. lia.
Qed.

Lemma prefix_same_length (k s : string) :
  prefix k s = true -> String.length k = String.length s -> k = s.
Proof.
  revert s. induction k as [|a k IH]; intros s H L.
  - destruct s; [reflexivity|discriminate].
  - destruct s as [|c s]; [discriminate|].
    rewrite prefix_cons in H. apply andb_true_iff in H as [A H].
    apply Ascii.eqb_eq in A. subst c. f_equal. apply IH; [exact H|].
    simpl in L. lia.
Qed.

Lemma contains_length (k s : string) :
  contains k s = true -> String.length k <= String.length s.
Proof.
  induction s as [|c s IH]; intros H.
  - now apply prefix_length.
  - rewrite contains_cons in H. apply orb_true_iff in H as [H|H].
    + now apply prefix_length.
    + apply IH in H. simpl. lia.
Qed.

(** A substring as long as the string is the string. *)
Lemma contains_same_length (k s : string) :
  contains k s = true -> String.length k = String.length s -> k = s.
Proof.
  destruct s as [|c s]; intros H L.
  - now apply prefix_same_length.
  - rewrite contains_cons in H. apply orb_true_iff in H as [H|H].
    + now apply prefix_same_length.
    + apply contains_length in H. simpl in L. lia.
Qed.

(** Among the keys contained in a name that is itself a key, the sort puts
    that name first. *)
Lemma longest_is_self (ks : list string) (model : string) :
  In model ks ->
  item0 (sorted String.length true (filter (fun m => contains m model) ks))
  = Ok model.
Proof.
  intros I.
  assert (M : In model (filter (fun m => contains m model) ks))
    by (apply filter_In; split; [exact I|apply contains_refl]).
  destruct (sorted String.length true (filter (fun m => contains m model) ks))
    as [|x r] eqn:S.
  - apply sorted_nil_inv in S. rewrite S in M. contradiction.
  - destruct (sorted_head _ _ _ _ S) as (pre & post & E & Hpre & Hpost).
    assert (X : In x (filter (fun m => contains m model) ks))
      by (rewrite E; apply in_elt).
    apply filter_In in X as [_ X].
    pose proof (contains_length _ _ X) as LX.
    simpl. f_equal. rewrite E in M.
    apply in_app_or in M as [M|[M|M]].
    + apply Hpre in M. lia.
    + exact M.
    + apply Hpost in M. apply contains_same_length; [exact X|lia].
Qed.

(** With some key contained in the model name, the table lookup of the
    first branch and the longest match of the second give the same price. *)
Lemma calculate_cost_over_longest (table : dict (float * float))
    (model : string) (pt st : Z) :
  (exists key, In key (keys table) /\ contains key model = true) ->
  calculate_cost_over table model pt st
  = (longest_match <- item0 (sorted String.length true
                               (filter (fun m => contains m model) (keys table))) ;;
     price <- dict_get longest_match table ;;
     cost_of pt st price).
Proof.
  intros (key & I & C). unfold calculate_cost_over.
  destruct (dict_contains model table) eqn:D.
  - apply dict_contains_In in D. rewrite (longest_is_self _ _ D). reflexivity.
  - destruct (filter (fun m => contains m model) (keys table)) as [|m0 ms] eqn:F;
      [|reflexivity].
    assert (K : In key (filter (fun m => contains m model) (keys table)))
      by (apply filter_In; auto).
    rewrite F in K. contradiction.
Qed.

Lemma cost_of_float (pt st : Z) (price : float * float) (v : number) :
  cost_of pt st price = Ok v -> exists f, v = PyFloat f.
Proof.
  unfold cost_of, bind. destruct price as [pp sp].
  destruct (int_true_div pt 1000); [|discriminate].
  destruct (int_true_div st 1000); [|discriminate].
  intros [= <-]. eauto.
Qed.

Lemma cost_of_zero (pp sp : float) :
  positive_price pp = true -> positive_price sp = true ->
  cost_of 0 0 (pp, sp) = Ok (PyFloat (S754_zero false)).
Proof.
  intros Hp Hs.
  destruct pp as [| | |[|] mp ep]; try discriminate.
  destruct sp as [| | |[|] ms es]; try discriminate.
  reflexivity.
Qed.

End LongestMatch.

(** X4: whenever some table key is contained in the model name,
    [__calculate_cost] prices with the first element of the sorted matches,
    also when the model name is itself a key: the exact-match branch selects
    the key the longest-match branch would select. *)
Theorem calculate_cost_exact_is_longest (model : string) (prompt_tokens sampled_tokens : Z) :
  (exists key, In key (keys prices) /\ contains key model = true) ->
  (In model (keys prices) ->
   item0 (sorted String.length true (matching_models model)) = Ok model) /\
  __calculate_cost model prompt_tokens sampled_tokens
  = (longest_match <- item0 (sorted String.length true (matching_models model)) ;;
     price <- dict_get longest_match prices ;;
     cost_of prompt_tokens sampled_tokens price).
Proof.
  intros H. split.
  - intros I. unfold matching_models. now apply longest_is_self.
  - rewrite calculate_cost_over_prices. unfold matching_models.
    now apply calculate_cost_over_longest.
Qed.

Lemma calculate_cost_exact_is_longest_witness :
  (In "gpt-4-turbo" (keys prices) ->
   item0 (sorted String.length true (matching_models "gpt-4-turbo")) = Ok "gpt-4-turbo") /\
  __calculate_cost "gpt-4-turbo" 1000 500
  = (longest_match <- item0 (sorted String.length true (matching_models "gpt-4-turbo")) ;;
     price <- dict_get longest_match prices ;;
     cost_of 1000 500 price).
Proof.
  apply (calculate_cost_exact_is_longest "gpt-4-turbo" 1000 500).
  exists "gpt-4". split; [|reflexivity].
  apply dict_contains_In. vm_compute. reflexivity.
Defined.

(** X5: zero tokens cost zero: with some table key contained in the model
    name, [__calculate_cost model 0 0] returns the float [+0.0]. *)
Theorem calculate_cost_zero_tokens (model : string) :
  (exists key, In key (keys prices) /\ contains key model = true) ->
  __calculate_cost model 0 0 = Ok (PyFloat (S754_zero false)).
Proof.
  intros (key & I & C).
  destruct (calculate_cost_cases model 0 0)
    as [(_ & [pp sp] & P & E)
       |[(_ & pre & k & post & [pp sp] & _ & _ & _ & _ & P & _ & E)
        |(_ & MM & _)]].
  - rewrite E. destruct (prices_positive _ _ _ P). now apply cost_of_zero.
  - rewrite E. destruct (prices_positive _ _ _ P). now apply cost_of_zero.
  - assert (F : In key (matching_models model)) by (apply filter_In; auto).
    rewrite MM in F. contradiction.
Qed.

Lemma calculate_cost_zero_tokens_witness :
  __calculate_cost "gpt-4-turbo-2024-04-09" 0 0 = Ok (PyFloat (S754_zero false)).
Proof.
  apply (calculate_cost_zero_tokens "gpt-4-turbo-2024-04-09").
  exists "gpt-4". split; [|reflexivity].
  apply dict_contains_In. vm_compute. reflexivity.
Defined.

(** X6: the integer 0 is returned for unknown models only: the result of
    [__calculate_cost] is the [int] 0 exactly when no table key is contained
    in the model name, and any other value it returns is a [float]. *)
Theorem calculate_cost_int_iff_unknown (model : string) (prompt_tokens sampled_tokens : Z) :
  (__calculate_cost model prompt_tokens sampled_tokens = Ok (PyInt 0) <->
   forall key, In key (keys prices) -> contains key model = false) /\
  (forall v, __calculate_cost model prompt_tokens sampled_tokens = Ok v ->
             v = PyInt 0 \/ exists f, v = PyFloat f).
Proof.
  destruct (calculate_cost_cases model prompt_tokens sampled_tokens)
    as [(D & price & _ & E)
       |[(_ & pre & k & post & price & K & C & _ & _ & _ & _ & E)
        |(_ & MM & E)]]; rewrite E.
  - split; [split|].
    + intros H. apply cost_of_float in H as (f & [=]).
    + intros H. apply dict_contains_In in D. apply H in D.
      rewrite contains_refl in D. discriminate.
    + intros v H. right. now apply cost_of_float in H.
  - split; [split|].
    + intros H. apply cost_of_float in H as (f & [=]).
    + intros H. rewrite H in C; [discriminate|]. rewrite K. apply in_elt.
    + intros v H. right. now apply cost_of_float in H.
  - split; [split|].
    + intros _ key I. destruct (contains key model) eqn:C; [|reflexivity].
      assert (F : In key (matching_models model)) by (apply filter_In; auto).
      rewrite MM in F. contradiction.
    + reflexivity.
    + intros v [= <-]. now left.
Qed.

(** * Where [int / int] overflows *)

Section OverflowAbove.

Local Open Scope Z_scope.

Lemma Zdigits2_pos (a : Z) : 0 < a -> 1 <= Zdigits2 a.
Proof.
  intros H. rewrite Zdigits2_log2 by exact H. pose proof (Z.log2_nonneg a). lia.
Qed.

Lemma Zdigits2_ge_pow2 (a k : Z) : 0 <= k -> 2 ^ k <= a -> k + 1 <= Zdigits2 a.
Proof.
  intros K H. assert (0 < a) by (pose proof (Z.pow_pos_nonneg 2 k); lia).
  rewrite Zdigits2_log2 by assumption.
  assert (k <= Z.log2 a) by (apply Z.log2_le_pow2; assumption). lia.
Qed.

(** Above the subnormal range the shift of [shr_fexp] leaves a positive
    significand. *)
Lemma shr_fexp_pos (m e : Z) (l : location) :
  0 < m -> -1074 < Zdigits2 m + e ->
  0 < shr_m (fst (shr_fexp Float64.prec Float64.emax m e l)).
Proof.
  intros Hm Hd. unfold shr_fexp, shr.
  assert (R : shr_m (shr_record_of_loc m l) = m) by (destruct l as [|[]]; reflexivity).
  destruct (fexp Float64.prec Float64.emax (Zdigits2 m + e) - e) as [|n|n] eqn:N; simpl;
    try (rewrite R; exact Hm).
  rewrite iter_shr_1_shiftr by (rewrite R; lia). rewrite R.
  assert (S : 0 <= Z.shiftr m (Zpos n)) by (apply Z.shiftr_nonneg; lia).
  assert (Z.shiftr m (Zpos n) <> 0); [|lia].
  intros Z0. apply Z.shiftr_eq_0_iff in Z0 as [Z0|[_ Z0]]; [lia|].
  rewrite Zdigits2_log2 in N, Hd by exact Hm.
  unfold fexp, emin, Float64.prec, Float64.emax in N. lia.
Qed.

(** Rounding to binary64 gives an infinity from [2^1024] on. *)
Lemma binary_round_aux_overflows (s : bool) (m e : Z) (l : location) :
  0 < m -> 1025 <= Zdigits2 m + e ->
  binary_round_aux Float64.prec Float64.emax s m e l = S754_infinity s.
Proof.
  intros Hm Hd. unfold binary_round_aux.
  pose proof (shr_fexp_bounds Float64.prec Float64.emax m e l ltac:(lia)) as [E1 _].
  pose proof (shr_fexp_pos m e l Hm ltac:(lia)) as N1.
  destruct (shr_fexp Float64.prec Float64.emax m e l) as [mrs' e']. simpl in E1, N1.
  set (m1 := round_nearest_even (shr_m mrs') (loc_of_shr_record mrs')).
  assert (Hm1 : 0 < m1).
  { destruct (round_nearest_even_cases (shr_m mrs') (loc_of_shr_record mrs')) as [R|R];
      unfold m1; rewrite R; lia. }
  assert (He' : 972 <= e').
  { unfold fexp, emin, Float64.prec, Float64.emax in E1. lia. }
  pose proof (Zdigits2_pos m1 Hm1) as D1.
  pose proof (shr_fexp_bounds Float64.prec Float64.emax m1 e' loc_Exact ltac:(lia))
    as [E2 _].
  pose proof (shr_fexp_pos m1 e' loc_Exact Hm1 ltac:(lia)) as N2.
  destruct (shr_fexp Float64.prec Float64.emax m1 e' loc_Exact) as [mrs'' e''].
  simpl in E2, N2.
  destruct (shr_m mrs'') as [|p|p]; try lia.
  destruct (Z.leb_spec e'' (Float64.emax - Float64.prec)) as [L|L]; [|reflexivity].
  unfold Float64.emax, Float64.prec in L. lia.
Qed.

(** The quotient by 1000 loses at most ten binary digits. *)
Lemma div_core_1000_lower (m1 : positive) :
  11 <= Zdigits2 (Zpos m1) ->
  let '(mz, ez, _) :=
    SFdiv_core_binary Float64.prec Float64.emax (Zpos m1) 0 (Zpos 1000) 0 in
  0 < mz /\ Zdigits2 (Zpos m1) - 10 <= Zdigits2 mz + ez.
Proof.
  intros Hd. unfold SFdiv_core_binary.
  set (ez := Z.min _ (0 - 0)).
  set (m' := match 0 - 0 - ez with
             | Zpos _ => Z.shiftl (Zpos m1) (0 - 0 - ez)
             | Z0 => Zpos m1
             | Zneg _ => 0
             end).
  assert (Hez : ez <= 0) by (unfold ez; lia).
  assert (Hm : 0 < m' /\ Zdigits2 m' = Zdigits2 (Zpos m1) - ez).
  { unfold m'. destruct (0 - 0 - ez) as [|n|n] eqn:S; cbv iota; try lia.
    rewrite Zdigits2_shiftl by lia. split; [|lia].
    rewrite Z.shiftl_mul_pow2 by lia.
    pose proof (Z.pow_pos_nonneg 2 (Zpos n)). nia. }
  destruct Hm as [Hm0 Hm1].
  pose proof (Z_div_mod m' (Zpos 1000) ltac:(lia)) as D.
  destruct (Z.div_eucl m' (Zpos 1000)) as [q r]. destruct D as [D R].
  rewrite Zdigits2_log2 in Hm1 by exact Hm0.
  pose proof (Z.log2_spec m' Hm0) as [Lo _].
  set (L := Z.log2 m') in *.
  assert (HL : 10 <= L) by lia.
  replace L with (10 + (L - 10)) in Lo by lia.
  rewrite Z.pow_add_r in Lo by lia.
  change (2 ^ 10) with 1024 in Lo.
  pose proof (Z.pow_pos_nonneg 2 (L - 10) ltac:(lia) ltac:(lia)) as P.
  assert (Q : 2 ^ (L - 10) <= q) by lia.
  split; [lia|].
  pose proof (Zdigits2_ge_pow2 q (L - 10) ltac:(lia) Q). lia.
Qed.

(** [tokens / 1000] raises from [|tokens| = 2^1034] on. *)
Lemma int_true_div_overflows (tokens : Z) :
  2 ^ 1034 <= Z.abs tokens ->
  int_true_div tokens 1000 = Raise (OverflowError overflow_msg).
Proof.
  intros H. unfold int_true_div. change (1000 =? 0) with false. cbn iota.
  assert (F : exists s, SFdiv Float64.prec Float64.emax (exact tokens) (exact 1000)
                        = S754_infinity s).
  { destruct tokens as [|p|p]; [simpl in H; lia| |];
      unfold exact, SFdiv;
      assert (Dp : 1035 <= Zdigits2 (Zpos p))
        by (change 1035 with (1034 + 1); apply Zdigits2_ge_pow2; lia);
      pose proof (div_core_1000_lower p ltac:(lia)) as B;
      destruct (SFdiv_core_binary Float64.prec Float64.emax (Zpos p) 0 (Zpos 1000) 0)
        as [[mz ez] lz];
      destruct B as (B1 & B2);
      eexists; apply binary_round_aux_overflows; lia. }
  destruct F as (s & ->). reflexivity.
Qed.

Lemma int_true_div_raises_only (tokens : Z) (e : exn) :
  int_true_div tokens 1000 = Raise e -> e = OverflowError overflow_msg.
Proof.
  unfold int_true_div. change (1000 =? 0) with false. cbn iota.
  destruct (SFdiv Float64.prec Float64.emax (exact tokens) (exact 1000));
    intros [=]; congruence.
Qed.

Lemma cost_of_overflows (pt st : Z) (price : float * float) :
  2 ^ 1034 <= Z.abs pt \/ 2 ^ 1034 <= Z.abs st ->
  cost_of pt st price = Raise (OverflowError overflow_msg).
Proof.
  intros H. unfold cost_of, bind. destruct price as [pp sp].
  destruct (int_true_div pt 1000) as [p|e] eqn:P.
  - destruct H as [H|H].
    + rewrite (int_true_div_overflows pt H) in P. discriminate.
    + now rewrite (int_true_div_overflows st H).
  - now rewrite (int_true_div_raises_only pt e P).
Qed.

End OverflowAbove.

(** X7: [__calculate_cost] raises nothing while both token counts, of
    either sign, are below [2^1000] in absolute value. *)
Theorem calculate_cost_no_exception (model : string) (prompt_tokens sampled_tokens : Z) :
  (Z.abs prompt_tokens < 2 ^ 1000)%Z -> (Z.abs sampled_tokens < 2 ^ 1000)%Z ->
  exists v, __calculate_cost model prompt_tokens sampled_tokens = Ok v.
Proof.
  intros Hp Hs.
  destruct (calculate_cost_cases model prompt_tokens sampled_tokens)
    as [(_ & price & _ & E)
       |[(_ & pre & k & post & price & _ & _ & _ & _ & _ & _ & E)
        |(_ & _ & E)]]; rewrite E.
  - now apply cost_of_returns.
  - now apply cost_of_returns.
  - eauto.
Qed.

Lemma calculate_cost_no_exception_witness :
  exists v, __calculate_cost "gpt-4o" (-1000) 123456789 = Ok v.
Proof.
  apply (calculate_cost_no_exception "gpt-4o" (-1000) 123456789); reflexivity.
Defined.

(** X8: with some table key contained in the model name, a token count of
    absolute value [2^1034] or more makes [__calculate_cost] raise the
    [OverflowError] of the division by 1000 instead of returning an
    infinity. *)
Theorem calculate_cost_overflow (model : string) (prompt_tokens sampled_tokens : Z) :
  (exists key, In key (keys prices) /\ contains key model = true) ->
  (2 ^ 1034 <= Z.abs prompt_tokens \/ 2 ^ 1034 <= Z.abs sampled_tokens)%Z ->
  __calculate_cost model prompt_tokens sampled_tokens
  = Raise (OverflowError overflow_msg).
Proof.
  intros (key & I & C) H.
  destruct (calculate_cost_cases model prompt_tokens sampled_tokens)
    as [(_ & price & _ & E)
       |[(_ & pre & k & post & price & _ & _ & _ & _ & _ & _ & E)
        |(_ & MM & _)]].
  - rewrite E. now apply cost_of_overflows.
  - rewrite E. now apply cost_of_overflows.
  - assert (F : In key (matching_models model)) by (apply filter_In; auto).
    rewrite MM in F. contradiction.
Qed.

Lemma calculate_cost_overflow_witness :
  __calculate_cost "gpt-4o" 0 (- 10 ^ 400) = Raise (OverflowError overflow_msg).
Proof.
  apply (calculate_cost_overflow "gpt-4o" 0 (- 10 ^ 400)).
  - exists "gpt-4o". split; [|reflexivity].
    apply dict_contains_In. vm_compute. reflexivity.
  - right. vm_compute. discriminate.
Defined.

(** * [__send_logs] and [__send_metrics] *)

Section ReporterFacts.

Context {J R : Type}.

Lemma except_request_exception_swallows (format : string) (raised : option client_exn) :
  forall err, snd (except_request_exception (J := J) format raised)
              <> Some (RequestException err).
Proof. destruct raised as [[e|e]|]; simpl; intros err; discriminate. Qed.

(** What the handler logs and lets through, in terms of the exception that
    reached it. *)
Lemma except_request_exception_cases (format : string) (raised : option client_exn) :
  (exists err, raised = Some (RequestException err) /\
     except_request_exception (J := J) format raised = ([LoggedError format err], None)) \/
  (exists err, raised = Some (OtherException err) /\
     except_request_exception (J := J) format raised = ([], Some (OtherException err))) \/
  (raised = None /\ except_request_exception (J := J) format raised = ([], None)).
Proof. destruct raised as [[e|e]|]; simpl; eauto. Qed.

End ReporterFacts.

(** X9: [__send_metrics] posts exactly one request, whatever the client
    does: to the metrics URL, with the lines joined by newlines as
    [text/plain] data (the empty body for no lines), the username and token
    as credentials and a timeout of 60.  No [RequestException] leaves it: a
    failure of the post or of the status check is logged once as
    "Error sending Metrics: %s" and nothing is logged otherwise; only an
    exception that is no [RequestException] propagates. *)
Theorem send_metrics_contract {J R : Type} (c : client J R)
    (metrics_url metrics_username access_token : string) (metrics : list string) :
  let r := {| req_url := metrics_url;
              req_auth := (metrics_username, access_token);
              req_headers := [("Content-Type", "text/plain")];
              req_content := Data (String.concat newline metrics);
              req_timeout := 60 |} in
  let (events, raised) :=
    __send_metrics c metrics_url metrics_username access_token metrics in
  posted events = [r] /\
  (metrics = [] -> req_content r = Data "") /\
  (forall err, raised <> Some (RequestException err)) /\
  (forall err, raised = Some (OtherException err) <->
               post_and_check c r = Some (OtherException err)) /\
  (forall err, request_failure c r = Some err ->
               logged_errors events = [("Error sending Metrics: %s", err)]) /\
  (request_failure c r = None -> logged_errors events = []).
Proof.
  intros r. unfold __send_metrics, request_failure. fold r.
  destruct (except_request_exception_cases (J := J) "Error sending Metrics: %s"
              (post_and_check c r))
    as [(e & -> & ->)|[(e & -> & ->)|(-> & ->)]]; simpl;
    (split; [reflexivity|]); (split; [now intros ->|]);
    (split; [discriminate|]); split.
  - intros err. split; discriminate.
  - split; [now intros err [= ->]|discriminate].
  - intros err. split; intros [= ->]; reflexivity.
  - split; [discriminate|reflexivity].
  - intros err. split; discriminate.
  - split; [discriminate|reflexivity].
Qed.

(** X10: [__send_logs] posts exactly one request, whatever the client does:
    to the logs URL, with the payload as [application/json], the username
    and token as credentials and a timeout of 60.  No [RequestException]
    leaves it: a failure of the post or of the status check is logged once
    as "Error sending Logs: %s" and nothing is logged otherwise; only an
    exception that is no [RequestException] propagates. *)
Theorem send_logs_contract {J R : Type} (c : client J R)
    (logs_url logs_username access_token : string) (logs : J) :
  let r := {| req_url := logs_url;
              req_auth := (logs_username, access_token);
              req_headers := [("Content-Type", "application/json")];
              req_content := Json logs;
              req_timeout := 60 |} in
  let (events, raised) := __send_logs c logs_url logs_username access_token logs in
  posted events = [r] /\
  (forall err, raised <> Some (RequestException err)) /\
  (forall err, raised = Some (OtherException err) <->
               post_and_check c r = Some (OtherException err)) /\
  (forall err, request_failure c r = Some err ->
               logged_errors events = [("Error sending Logs: %s", err)]) /\
  (request_failure c r = None -> logged_errors events = []).
Proof.
  intros r. unfold __send_logs, request_failure. fold r.
  destruct (except_request_exception_cases (J := J) "Error sending Logs: %s"
              (post_and_check c r))
    as [(e & -> & ->)|[(e & -> & ->)|(-> & ->)]]; simpl;
    (split; [reflexivity|]); (split; [discriminate|]); split.
  - intros err. split; discriminate.
  - split; [now intros err [= ->]|discriminate].
  - intros err. split; intros [= ->]; reflexivity.
  - split; [discriminate|reflexivity].
  - intros err. split; discriminate.
  - split; [discriminate|reflexivity].
Qed.

(** X11: a single longest match decides the price.  When [key] is a table
    key contained in the model name and every other contained key is
    strictly shorter, [__calculate_cost] prices with the pair stored under
    [key]; this covers a model name that is itself a key. *)
Theorem calculate_cost_unique_longest (model key : string) (price : float * float)
    (prompt_tokens sampled_tokens : Z) :
  In (key, price) prices ->
  contains key model = true ->
  (forall key', In key' (keys prices) -> contains key' model = true ->
                key' <> key -> String.length key' < String.length key) ->
  __calculate_cost model prompt_tokens sampled_tokens
  = cost_of prompt_tokens sampled_tokens price.
Proof.
  intros P C U.
  assert (I : In key (keys prices))
    by (change key with (fst (key, price)); now apply in_map).
  destruct (calculate_cost_cases model prompt_tokens sampled_tokens)
    as [(D & price' & P' & E)
       |[(_ & pre & k & post & price' & K & Ck & Hpre & Hpost & P' & _ & E)
        |(_ & MM & _)]].
  - rewrite E. apply dict_contains_In in D.
    assert (M : model = key).
    { destruct (string_dec model key) as [M|M]; [exact M|].
      pose proof (U model D (contains_refl model) M).
      pose proof (contains_length _ _ C). lia. }
    subst model. now rewrite (prices_functional _ _ _ P P').
  - rewrite E.
    assert (M : k = key).
    { destruct (string_dec k key) as [M|M]; [exact M|].
      assert (Ik : In k (keys prices)) by (rewrite K; apply in_elt).
      pose proof (U k Ik Ck M) as L.
      rewrite K in I. apply in_app_or in I as [I|[I|I]].
      - pose proof (Hpre key I C). lia.
      - congruence.
      - pose proof (Hpost key I C). lia. }
    subst k. now rewrite (prices_functional _ _ _ P P').
  - assert (F : In key (matching_models model)) by (apply filter_In; auto).
    rewrite MM in F. contradiction.
Qed.

Lemma calculate_cost_unique_longest_witness :
  __calculate_cost "gpt-4-turbo-custom-suffix" 1000 0
  = cost_of 1000 0 (dec 1 2, dec 3 2).
Proof.
  apply (calculate_cost_unique_longest "gpt-4-turbo-custom-suffix" "gpt-4-turbo").
  - vm_compute. tauto.
  - reflexivity.
  - intros key' I C N.
    assert (F : forallb (fun k => negb (contains k "gpt-4-turbo-custom-suffix")
                                  || String.eqb k "gpt-4-turbo"
                                  || (String.length k <? String.length "gpt-4-turbo")%nat)
                        (keys prices) = true)
      by (vm_compute; reflexivity).
    rewrite forallb_forall in F. specialize (F key' I). rewrite C in F. simpl in F.
    apply orb_true_iff in F as [F|F].
    + apply String.eqb_eq in F. contradiction.
    + now apply Nat.ltb_lt.
Defined.

(** A metrics URL whose ["api/prom"] is the start of ["api/prometheus"]
    passes the check, and the first replacement then takes the marker away
    before the second can rewrite it. *)
Example check_api_prometheus :
  __check (Some "https://example.net/api/prometheus/push") (Some loki_url)
          (Some "123") (Some "456") (Some "token")
  = Ok ("https://example.net/api/influx/push", loki_url).
Proof. reflexivity. Qed.
